(** * IDX Signal API: a shallow embedding of [backend/app.py]

    The development follows the source file top to bottom: the in-memory
    TTL cache, ticker normalisation, the indicator engine ([sma], [rsi],
    [atr]), the pivots, [compute_signal], [market_regime] and the scoring
    and ranking done by [api_screener].

    Numbers.  The program computes on IEEE doubles.  A double is modelled
    as a rational or NaN (type [fl]); arithmetic is exact, infinities and
    rounding are not modelled.  Comparisons with NaN are false and NaN
    propagates through arithmetic, as in Python and numpy. *)

From Stdlib Require Import QArith Qabs Qround Qminmax Lqa ZArith Lia Ascii String.
From stdpp Require Import base option list sorting gmap strings pretty.

Local Open Scope Q_scope.

(** ** Doubles *)

Inductive fl : Type :=
  | NaN
  | Fin (q : Q).

Definition Qlt_bool (x y : Q) : bool := negb (Qle_bool y x).

Definition isnan (x : fl) : bool :=
  match x with NaN => true | Fin _ => false end.

Definition lift2 (f : Q -> Q -> Q) (x y : fl) : fl :=
  match x, y with
  | Fin a, Fin b => Fin (f a b)
  | _, _ => NaN
  end.

Definition cmp2 (f : Q -> Q -> bool) (x y : fl) : bool :=
  match x, y with
  | Fin a, Fin b => f a b
  | _, _ => false
  end.

Definition fadd : fl -> fl -> fl := lift2 Qplus.
Definition fsub : fl -> fl -> fl := lift2 Qminus.
Definition fmul : fl -> fl -> fl := lift2 Qmult.

(** Every division of the program sits behind a test that its divisor is
    not zero, so the value chosen for a zero divisor is never observed. *)
Definition fdiv (x y : fl) : fl :=
  match x, y with
  | Fin a, Fin b => if Qeq_bool b 0 then NaN else Fin (a / b)
  | _, _ => NaN
  end.

Definition fneg (x : fl) : fl :=
  match x with NaN => NaN | Fin a => Fin (- a) end.

Definition fabs (x : fl) : fl :=
  match x with NaN => NaN | Fin a => Fin (Qabs a) end.

Definition fgt : fl -> fl -> bool := cmp2 (fun a b => Qlt_bool b a).
Definition flt : fl -> fl -> bool := cmp2 Qlt_bool.
Definition fge : fl -> fl -> bool := cmp2 (fun a b => Qle_bool b a).
Definition fle : fl -> fl -> bool := cmp2 Qle_bool.
Definition feq : fl -> fl -> bool := cmp2 Qeq_bool.

(** [x != y]: true as soon as one side is NaN. *)
Definition fne (x y : fl) : bool := negb (feq x y).

(** Python's [bool(x)] for a float: false exactly for zero; NaN is true. *)
Definition truthy (x : fl) : bool := fne x (Fin 0).

(** Python's [bool(x)] for a value that is [None] or a float. *)
Definition truthy_opt (x : option fl) : bool :=
  match x with None => false | Some v => truthy v end.

(** Python's two-argument [min(a, b)]: [b] if [b < a], otherwise [a]. *)
Definition py_min (a b : fl) : fl := if flt b a then b else a.

(** ** The in-memory cache *)

Definition CACHE_TTL_SECONDS : Z := 60 * 10.

Section Cache.
Context {V : Type}.

(** One item of [_cache]: [{"ts": ..., "value": ...}]. *)
Record item : Type := Item { ts : Z; value : V }.

(** [cache_get] reads the clock once; [now] is that reading.  The
    result pairs the returned value ([None] for Python's [None]) with
    the dictionary after the call. *)
Definition cache_get (now : Z) (key : string) (c : gmap string item)
  : option V * gmap string item :=
  match c !! key with
  | None => (None, c)
  | Some it =>
      if (CACHE_TTL_SECONDS <? now - ts it)%Z
      then (None, delete key c)
      else (Some (value it), c)
  end.

Definition cache_set (now : Z) (key : string) (v : V) (c : gmap string item)
  : gmap string item :=
  <[key := Item now v]> c.
End Cache.

Arguments item : clear implicits.

(** ** Ticker normalisation

    A Python [str] is modelled as a [string] of ASCII characters. *)

Definition nat_in (lo hi : nat) (a : ascii) : bool :=
  (lo <=? nat_of_ascii a)%nat && (nat_of_ascii a <=? hi)%nat.

(** [str.isspace] on one ASCII character: TAB..CR, FS..US and space. *)
Definition is_space (a : ascii) : bool :=
  nat_in 9 13 a || nat_in 28 32 a.

Definition upper_char (a : ascii) : ascii :=
  if nat_in 97 122 a then ascii_of_nat (nat_of_ascii a - 32) else a.

Fixpoint lstrip (s : list ascii) : list ascii :=
  match s with
  | [] => []
  | a :: s' => if is_space a then lstrip s' else s
  end.

Definition rstrip (s : list ascii) : list ascii := rev (lstrip (rev s)).

Definition strip (s : list ascii) : list ascii := rstrip (lstrip s).

Definition upper (s : list ascii) : list ascii := map upper_char s.

Fixpoint startswith (p s : list ascii) : bool :=
  match p, s with
  | [], _ => true
  | _ :: _, [] => false
  | a :: p', b :: s' => if Ascii.eqb a b then startswith p' s' else false
  end.

Definition endswith (p s : list ascii) : bool := startswith (rev p) (rev s).

Definition chars (s : string) : list ascii := list_ascii_of_string s.

Definition _to_jk_ticker (t : string) : string :=
  let t := upper (strip (chars t)) in
  if startswith (chars "^") t then string_of_list_ascii t
  else if endswith (chars ".JK") t then string_of_list_ascii t
  else string_of_list_ascii (t ++ chars ".JK").

(** ** Bars and columns

    A data frame is the list of its rows, oldest first.  Each price and
    the volume is a double, so it may be NaN. *)

Record Bar : Type := mkBar {
  bar_date : Z;
  bar_open : fl;
  bar_high : fl;
  bar_low : fl;
  bar_close : fl;
  bar_volume : fl
}.

(** [df["name"]] *)
Definition col (f : Bar -> fl) (df : list Bar) : list fl := map f df.

(** ** Indicator engine *)

Definition fsum (w : list fl) : fl := foldr fadd (Fin 0) w.

Definition of_nat (n : nat) : fl := Fin (inject_Z (Z.of_nat n)).

(** [series.rolling(n).mean()]: at position [i] the mean of the [n] values
    ending at [i]; NaN while fewer than [n] values are available or when
    one of them is NaN ([min_periods] defaults to the window size). *)
Definition rolling_mean (n : nat) (s : list fl) : list fl :=
  imap (fun i _ =>
          if (n <=? S i)%nat
          then fdiv (fsum (take n (drop (S i - n) s))) (of_nat n)
          else NaN) s.

Definition sma (series : list fl) (n : nat) : list fl := rolling_mean n series.

(** [series.diff()] *)
Definition diff (s : list fl) : list fl :=
  match s with
  | [] => []
  | _ :: t => NaN :: zip_with fsub t s
  end.

(** [x.clip(lower=0)] and [x.clip(upper=0)] on one value; NaN stays NaN. *)
Definition clip_lower0 (x : fl) : fl :=
  match x with NaN => NaN | Fin a => if Qlt_bool a 0 then Fin 0 else Fin a end.

Definition clip_upper0 (x : fl) : fl :=
  match x with NaN => NaN | Fin a => if Qlt_bool 0 a then Fin 0 else Fin a end.

(** [x.replace(0, np.nan)] on one value. *)
Definition replace0_nan (x : fl) : fl := if feq x (Fin 0) then NaN else x.

Definition rsi_up (series : list fl) (n : nat) : list fl :=
  rolling_mean n (map clip_lower0 (diff series)).

Definition rsi_down (series : list fl) (n : nat) : list fl :=
  rolling_mean n (map (fun x => fneg (clip_upper0 x)) (diff series)).

Definition rsi (series : list fl) (n : nat) : list fl :=
  let up := rsi_up series n in
  let down := rsi_down series n in
  let rs := zip_with fdiv up (map replace0_nan down) in
  map (fun r => fsub (Fin 100) (fdiv (Fin 100) (fadd (Fin 1) r))) rs.

(** pandas [max] and [min] skip NaN; the result is NaN when nothing is
    left. *)
Definition fmax_skip (x y : fl) : fl :=
  match x, y with
  | NaN, _ => y
  | _, NaN => x
  | Fin a, Fin b => if Qlt_bool a b then y else x
  end.

Definition fmin_skip (x y : fl) : fl :=
  match x, y with
  | NaN, _ => y
  | _, NaN => x
  | Fin a, Fin b => if Qlt_bool b a then y else x
  end.

Definition nanmax (l : list fl) : fl := foldr fmax_skip NaN l.
Definition nanmin (l : list fl) : fl := foldr fmin_skip NaN l.

(** [series.shift()] *)
Definition shift (s : list fl) : list fl :=
  match s with
  | [] => []
  | _ :: _ => NaN :: removelast s
  end.

Definition zip3 (f : fl -> fl -> fl -> fl) (a b c : list fl) : list fl :=
  zip_with (fun x yz => f x (fst yz) (snd yz)) a (zip b c).

Definition true_range (df : list Bar) : list fl :=
  let high := col bar_high df in
  let low := col bar_low df in
  let close := col bar_close df in
  zip3 (fun h l pc => nanmax [fsub h l; fabs (fsub h pc); fabs (fsub l pc)])
       high low (shift close).

Definition atr (df : list Bar) (n : nat) : list fl :=
  rolling_mean n (true_range df).

(** ** Pivots *)

(** [df.iloc[-k : -1]]: start and stop are clamped at 0 as Python slices
    do. *)
Definition iloc_tail {A} (k : nat) (df : list A) : list A :=
  let n := length df in
  take ((n - 1) - (n - k)) (drop (n - k) df).

Definition pivot_high (df : list Bar) (lookback : nat) : fl :=
  if (length df <? lookback + 2)%nat
  then nanmax (col bar_high df)
  else nanmax (col bar_high (iloc_tail (lookback + 1) df)).

Definition pivot_low (df : list Bar) (lookback : nat) : fl :=
  if (length df <? lookback + 2)%nat
  then nanmin (col bar_low df)
  else nanmin (col bar_low (iloc_tail (lookback + 1) df)).

(** ** Results and failures

    A call either returns or raises; an exception is kept as the text of
    [str(e)]. *)

Inductive outcome (A : Type) : Type :=
  | Ok (a : A)
  | Raise (msg : string).

Arguments Ok {A} a.
Arguments Raise {A} msg.

(** ** The signal classifier *)

Inductive Setup : Type := NONE | BREAKOUT | PULLBACK_MA20.

Definition Setup_eqb (a b : Setup) : bool :=
  match a, b with
  | NONE, NONE | BREAKOUT, BREAKOUT | PULLBACK_MA20, PULLBACK_MA20 => true
  | _, _ => false
  end.

(** The entries of the ["reason"] list, one constructor per message. *)
Inductive Reason : Type :=
  | ReasonTrendOk
  | ReasonBrokeResistance (resistance : fl)
  | ReasonVolumeAboveAverage
  | ReasonNearMa20
  | ReasonBullishCandle
  | ReasonNoSetup.

Record RiskReward : Type := mkRiskReward {
  risk_per_share : fl;
  r_multiple_tp1 : option fl;
  r_multiple_tp2 : option fl
}.

Record Signal : Type := mkSignal {
  setup : Setup;
  trend_ok : bool;
  close : fl;
  ma20 : fl;
  ma50 : fl;
  resistance : fl;
  support : fl;
  volume : fl;
  volma20 : fl;
  entry : option fl;
  sl : option fl;
  tp1 : option fl;
  tp2 : option fl;
  rr : option RiskReward;
  reason : list Reason;
  asof : Z
}.

(** [float(v) if not math.isnan(float(v)) else d] *)
Definition nan_default (v d : fl) : fl := if isnan v then d else v.

(** [last["name"]] for a column aligned with the frame. *)
Definition last_of (column : list fl) : fl := default NaN (last column).

(** [((tp - entry) / (entry - sl)) if tp else None] *)
Definition r_multiple (tp : option fl) (entry sl : fl) : option fl :=
  match tp with
  | Some t => if truthy t then Some (fdiv (fsub t entry) (fsub entry sl)) else None
  | None => None
  end.

(** Lines 233-239: [rr] stays [None] unless
    [entry and sl and entry > sl]. *)
Definition risk_reward (entry sl tp1 tp2 : option fl) : option RiskReward :=
  match entry, sl with
  | Some e, Some s =>
      if truthy e && truthy s && fgt e s
      then Some (mkRiskReward (fsub e s) (r_multiple tp1 e s) (r_multiple tp2 e s))
      else None
  | _, _ => None
  end.

(** The [rsi14] column the source also adds to its copy of the frame is
    read by nothing afterwards and is left out.  [d.iloc[-1]] raises
    IndexError on an empty frame. *)
Definition compute_signal (df : list Bar) : outcome Signal :=
  let d := df in
  let ma20_col := sma (col bar_close d) 20 in
  let ma50_col := sma (col bar_close d) 50 in
  let volma20_col := sma (col bar_volume d) 20 in
  let atr14_col := atr d 14 in
  match last d with
  | None => Raise "single positional indexer is out-of-bounds"
  | Some last =>
      let close := bar_close last in
      let open_ := bar_open last in
      let vol := nan_default (bar_volume last) (Fin 0) in
      let ma20 := nan_default (last_of ma20_col) close in
      let ma50 := nan_default (last_of ma50_col) close in
      let volma20 := nan_default (last_of volma20_col) vol in
      let atr14v := nan_default (last_of atr14_col) (Fin 0) in
      let resistance := pivot_high d 20 in
      let support := pivot_low d 20 in
      let trend_ok := fgt close ma50 && fgt ma20 ma50 in
      let breakout := trend_ok && fgt close resistance && fgt vol volma20 in
      let dist_ma20 :=
        if fne ma20 (Fin 0) then fdiv (fabs (fsub close ma20)) ma20 else Fin 0 in
      let pullback := trend_ok && fle dist_ma20 (Fin (2 # 100)) && fge close open_ in
      let '(setup, entry, sl, tp1, tp2, reason) :=
        if breakout then
          let sl := if fgt atr14v (Fin 0)
                    then py_min support (fsub close (fmul (Fin 2) atr14v))
                    else support in
          (BREAKOUT, Some close, Some sl,
           Some (fadd close (fmul (fsub close sl) (Fin 1))),
           Some (fadd close (fmul (fsub close sl) (Fin 2))),
           [ReasonTrendOk; ReasonBrokeResistance resistance; ReasonVolumeAboveAverage])
        else if pullback then
          let sl := py_min support (fmul ma20 (Fin (98 # 100))) in
          (PULLBACK_MA20, Some close, Some sl,
           Some resistance,
           Some (fadd resistance (fsub resistance sl)),
           [ReasonTrendOk; ReasonNearMa20; ReasonBullishCandle])
        else
          (NONE, None, None, None, None, [ReasonNoSetup]) in
      let rr := risk_reward entry sl tp1 tp2 in
      Ok (mkSignal setup trend_ok close ma20 ma50 resistance support vol volma20
                   entry sl tp1 tp2 rr reason (bar_date last))
  end.

(** ** The regime classifier *)

Inductive Status : Type := RISK_ON | RISK_OFF | NO_TRADE_DAY | NEUTRAL | UNKNOWN.

Record Regime : Type := mkRegime {
  status : Status;
  reg_close : option fl;
  reg_ma20 : option fl;
  reg_ma50 : option fl;
  day_change_pct : option fl;
  atr14_pct : option fl;
  reg_asof : option Z;
  note : list string;
  reg_ticker : string
}.

(** [round(x, 2)] on an exact value: nearest hundredth, ties to even. *)
Definition round_half_even (x : Q) : Z :=
  let f := Qfloor x in
  let r := x - inject_Z f in
  if Qlt_bool r (1 # 2) then f
  else if Qlt_bool (1 # 2) r then (f + 1)%Z
  else if Z.even f then f else (f + 1)%Z.

Definition round2 (x : fl) : fl :=
  match x with
  | NaN => NaN
  | Fin a => Fin (inject_Z (round_half_even (a * 100)) / 100)
  end.

(** [d.iloc[-2] if len(d) >= 2 else last] *)
Definition prev_bar (d : list Bar) (last : Bar) : Bar :=
  if (2 <=? length d)%nat then default last (d !! (length d - 2)%nat) else last.

(** The status decided by lines 283-301 from the five numbers they read. *)
Definition regime_status (close ma20 ma50 atr_pct day_change : fl)
  : Status * list string :=
  let trend_on := fgt close ma50 && fgt ma20 ma50 in
  let trend_off := flt close ma50 in
  let '(status, note) :=
    if trend_on then (RISK_ON, ["IHSG uptrend (Close>MA50 & MA20>MA50)"%string])
    else if trend_off then (RISK_OFF, ["IHSG di bawah MA50 (risk-off)"%string])
    else (NEUTRAL, []) in
  if trend_off && (fge atr_pct (Fin (2 # 100)) || fle day_change (Fin (- (2 # 100))))
  then (NO_TRADE_DAY,
        ["IHSG risk-off + volatilitas/penurunan tajam → prefer no trade"%string])
  else (status, note).

(** The numbers lines 275-287 read off the frame [d] whose last row is
    [last]. *)
Definition regime_ma20 (d : list Bar) (last : Bar) : fl :=
  nan_default (last_of (sma (col bar_close d) 20)) (bar_close last).

Definition regime_ma50 (d : list Bar) (last : Bar) : fl :=
  nan_default (last_of (sma (col bar_close d) 50)) (bar_close last).

Definition regime_atr14v (d : list Bar) : fl :=
  nan_default (last_of (atr d 14)) (Fin 0).

Definition regime_day_change (d : list Bar) (last : Bar) : fl :=
  let prev := prev_bar d last in
  if fne (bar_close prev) (Fin 0)
  then fdiv (fsub (bar_close last) (bar_close prev)) (bar_close prev)
  else Fin 0.

Definition regime_atr_pct (d : list Bar) (last : Bar) : fl :=
  if fne (bar_close last) (Fin 0)
  then fdiv (regime_atr14v d) (bar_close last)
  else Fin 0.

(** The body of the [try] block; [fetched] is what
    [fetch_ohlcv("^JKSE", days=260)] returned or raised. *)
Definition market_regime_try (fetched : outcome (list Bar)) : outcome Regime :=
  match fetched with
  | Raise msg => Raise msg
  | Ok df =>
      let d := df in
      match last d with
      | None => Raise "single positional indexer is out-of-bounds"
      | Some last =>
          let close := bar_close last in
          let ma20 := regime_ma20 d last in
          let ma50 := regime_ma50 d last in
          let day_change := regime_day_change d last in
          let atr_pct := regime_atr_pct d last in
          let '(status, note) := regime_status close ma20 ma50 atr_pct day_change in
          Ok (mkRegime status (Some close) (Some ma20) (Some ma50)
                       (Some (round2 (fmul day_change (Fin 100))))
                       (Some (round2 (fmul atr_pct (Fin 100))))
                       (Some (bar_date last)) note "^JKSE")
      end
  end.

(** The record built by the [except Exception as e] clause; [msg] is
    [str(e)]. *)
Definition degraded (msg : string) : Regime :=
  mkRegime UNKNOWN None None None None None None
           [("Data IHSG belum tersedia: " ++ msg)%string] "^JKSE".

Definition market_regime (fetched : outcome (list Bar)) : Regime :=
  match market_regime_try fetched with
  | Ok r => r
  | Raise msg => degraded msg
  end.

(** ** The screener *)

Record Row : Type := mkRow {
  row_ticker : string;
  score : Z;
  row_setup : Setup;
  row_close : fl;
  row_resistance : fl;
  row_support : fl;
  row_asof : Z;
  row_reason : list Reason
}.

(** Lines 429-437. *)
Definition score_of (sig : Signal) : Z :=
  let score := 0%Z in
  let score := if trend_ok sig then (score + 2)%Z else score in
  let score := if Setup_eqb (setup sig) BREAKOUT then (score + 3)%Z else score in
  let score := if Setup_eqb (setup sig) PULLBACK_MA20 then (score + 2)%Z else score in
  let score :=
    if truthy (volume sig) && truthy (volma20 sig) && fgt (volume sig) (volma20 sig)
    then (score + 1)%Z else score in
  score.

(** One turn of the loop over the tickers: [None] when the body raised and
    the [except] clause skipped the ticker. *)
Definition screen_ticker (fetch_ohlcv : string -> nat -> outcome (list Bar))
    (days : nat) (t : string) : option Row :=
  match fetch_ohlcv t days with
  | Raise _ => None
  | Ok df =>
      match compute_signal df with
      | Raise _ => None
      | Ok sig =>
          Some (mkRow (_to_jk_ticker t) (score_of sig) (setup sig) (close sig)
                      (resistance sig) (support sig) (asof sig) (reason sig))
      end
  end.

(** [results.sort(key=lambda x: x["score"], reverse=True)].  Python's sort
    is stable, also with [reverse=True]; a stable sort has one possible
    result (lemma [stable_sort_unique] below), computed here by
    insertion. *)
Fixpoint insert_desc (x : Row) (l : list Row) : list Row :=
  match l with
  | [] => [x]
  | y :: l' =>
      if (score y <=? score x)%Z then x :: y :: l' else y :: insert_desc x l'
  end.

Fixpoint sort_desc (l : list Row) : list Row :=
  match l with
  | [] => []
  | x :: l' => insert_desc x (sort_desc l')
  end.

Definition load_universe (tickers_lq45 : list string) (name : string)
  : outcome (list string) :=
  let name := string_of_list_ascii (upper (chars name)) in
  if String.eqb name "LQ45" then Ok tickers_lq45
  else Raise "Universe hanya support: LQ45 (sementara)".

Record Screener : Type := mkScreener {
  scr_universe : string;
  scr_market_regime : Regime;
  count : nat;
  top : list Row
}.

(** [results] as it stands after the loop. *)
Definition screener_results (fetch_ohlcv : string -> nat -> outcome (list Bar))
    (days : nat) (tickers : list string) : list Row :=
  omap (screen_ticker fetch_ohlcv days) tickers.

Definition api_screener (tickers_lq45 : list string)
    (fetch_ohlcv : string -> nat -> outcome (list Bar))
    (universe : string) (days : nat) : outcome Screener :=
  match load_universe tickers_lq45 universe with
  | Raise msg => Raise msg
  | Ok tickers =>
      let regime := market_regime (fetch_ohlcv "^JKSE"%string 260%nat) in
      let results := sort_desc (screener_results fetch_ohlcv days tickers) in
      Ok (mkScreener (string_of_list_ascii (upper (chars universe))) regime
                     (length results) (take 25 results))
  end.

(** ** Fetching

    [yf.download] is the provider: given the normalised ticker and the
    period it answers [None] or a frame.  The frame is taken with its
    columns already flattened and renamed (lines 99-111), so a row is a
    [Bar]; its date comes from the index and is always there. *)

(** [_normalize_yf_columns] on the column index: a flat index is left as
    it is; each tuple of a MultiIndex is joined with ["_"] over its
    non-empty parts and then loses a trailing ["_" + yf_ticker]. *)
Inductive ColumnIndex : Type :=
  | FlatIndex (names : list string)
  | MultiIndex (names : list (list string)).

Definition nonempty (s : list ascii) : bool :=
  match s with [] => false | _ :: _ => true end.

(** ["_".join(parts)] *)
Fixpoint join_underscore (parts : list (list ascii)) : list ascii :=
  match parts with
  | [] => []
  | [p] => p
  | p :: ps => p ++ chars "_" ++ join_underscore ps
  end.

Definition flatten_column (column : list string) : list ascii :=
  join_underscore (List.filter nonempty (map chars column)).

(** [c[: -len(ticker_suffix)]] for a [c] that ends with the suffix. *)
Definition strip_ticker_suffix (yf_ticker : string) (c : list ascii) : list ascii :=
  let ticker_suffix := chars "_" ++ chars yf_ticker in
  if endswith ticker_suffix c then take (length c - length ticker_suffix) c else c.

Definition _normalize_yf_columns (columns : ColumnIndex) (yf_ticker : string)
  : list string :=
  match columns with
  | FlatIndex names => names
  | MultiIndex names =>
      map (fun column =>
             string_of_list_ascii
               (strip_ticker_suffix yf_ticker (flatten_column column))) names
  end.

(** The period asked of the provider for a number of days. *)
Definition period_of (days : nat) : string :=
  if (days <=? 60)%nat then "3mo"
  else if (days <=? 120)%nat then "6mo"
  else if (days <=? 260)%nat then "1y"
  else "2y".

(** [f"ohlcv:{yf_ticker}:{days}"] *)
Definition cache_key (yf_ticker : string) (days : nat) : string :=
  ("ohlcv:" ++ yf_ticker ++ ":" ++ pretty days)%string.

(** A row [dropna(subset=["date", "open", "high", "low", "close"])]
    keeps. *)
Definition complete_row (b : Bar) : bool :=
  negb (isnan (bar_open b)) && negb (isnan (bar_high b))
  && negb (isnan (bar_low b)) && negb (isnan (bar_close b)).

(** [df.iloc[-days:]] when [len(df) > days]; with [days = 0] the slice
    [iloc[-0:]] is the whole frame. *)
Definition last_days (days : nat) (df : list Bar) : list Bar :=
  if (days <? length df)%nat
  then (if (days =? 0)%nat then df else drop (length df - days) df)
  else df.

(** [fetch_ohlcv].  The clock is read once by [cache_get] ([now]) and
    once more by [cache_set] after the download ([now']).  The 404 is
    kept by its detail text.  [days] is a natural number: every caller
    passes one. *)
Definition fetch_ohlcv (download : string -> string -> option (list Bar))
    (now now' : Z) (ticker : string) (days : nat)
    (c : gmap string (item (list Bar)))
  : outcome (list Bar) * gmap string (item (list Bar)) :=
  let yf_ticker := _to_jk_ticker ticker in
  let key := cache_key yf_ticker days in
  match cache_get now key c with
  | (Some cached, c) => (Ok cached, c)
  | (None, c) =>
      match download yf_ticker (period_of days) with
      | None | Some [] =>
          (Raise ("Data kosong untuk ticker " ++ yf_ticker)%string, c)
      | Some df =>
          let df := List.filter complete_row df in
          let df := last_days days df in
          (Ok df, cache_set now' key df c)
      end
  end.

(** The body of [api_signal]: the answer, or the exception that leaves
    the handler, and the cache afterwards. *)
Definition api_signal (download : string -> string -> option (list Bar))
    (now now' : Z) (ticker : string) (days : nat)
    (c : gmap string (item (list Bar)))
  : outcome (string * Signal) * gmap string (item (list Bar)) :=
  match fetch_ohlcv download now now' ticker days c with
  | (Raise msg, c) => (Raise msg, c)
  | (Ok df, c) =>
      match compute_signal df with
      | Raise msg => (Raise msg, c)
      | Ok sig => (Ok (_to_jk_ticker ticker, sig), c)
      end
  end.

(** * Specification-side notions and sample inputs *)

(** [n] identical bars with open = high = low = close = [p], the dates
    counting up from [start]. *)
Definition flat_bar (d : Z) (p v : Q) : Bar :=
  mkBar d (Fin p) (Fin p) (Fin p) (Fin p) (Fin v).

Definition flat_run (n : nat) (start : Z) (p v : Q) : list Bar :=
  map (fun i => flat_bar (start + Z.of_nat i) p v) (seq 0 n).

(** Sixty bars: thirty days at 10, then a plateau at 20 on which day 40
    trades down to a low of 0, and a last day that closes at 30 on ten
    times the usual volume. *)
Definition series_zero_low : list Bar :=
  flat_run 30 0 10 100 ++ flat_run 10 30 20 100
  ++ [mkBar 40 (Fin 20) (Fin 20) (Fin 0) (Fin 20) (Fin 100)]
  ++ flat_run 18 41 20 100
  ++ [mkBar 59 (Fin 20) (Fin 30) (Fin 20) (Fin 30) (Fin 1000)].

(** Twenty flat bars whose volumes are -1, eighteen times 0, and 1. *)
Definition series_signed_volume : list Bar :=
  [flat_bar 0 10 (-1)] ++ flat_run 18 1 10 0 ++ [flat_bar 19 10 1].

Definition bonus (b : bool) (points : Z) : Z := if b then points else 0%Z.

(** The score as the specification words it: +2 for the trend, +3 for a
    breakout, +2 for a pullback, +1 when the latest volume is above its
    20-day mean. *)
Definition spec_score (sig : Signal) : Z :=
  (bonus (trend_ok sig) 2
   + bonus (Setup_eqb (setup sig) BREAKOUT) 3
   + bonus (Setup_eqb (setup sig) PULLBACK_MA20) 2
   + bonus (fgt (volume sig) (volma20 sig)) 1)%Z.

(** A volume column as the data model has it: no negative entry. *)
Definition volumes_nonneg (df : list Bar) : Prop :=
  Forall (fun b => bar_volume b = NaN \/ exists v, bar_volume b = Fin v /\ 0 <= v) df.

(** Sixty bars: thirty days at 10, twenty-nine at 20, and a last day that
    closes at 30 on ten times the usual volume. *)
Definition series_breakout : list Bar :=
  flat_run 30 0 10 100 ++ flat_run 29 30 20 100
  ++ [mkBar 59 (Fin 20) (Fin 30) (Fin 20) (Fin 30) (Fin 1000)].

(** A take-profit ratio as the classifier reports it: none for a missing
    or zero target. *)
Definition r_multiple_value (tp : option fl) (e s : Q) : option fl :=
  match tp with
  | None => None
  | Some NaN => Some NaN
  | Some (Fin c) => if Qeq_bool c 0 then None else Some (Fin ((c - e) / (e - s)))
  end.

(** The exact sum of a list of rationals. *)
Definition Qsum (qs : list Q) : Q := foldr Qplus 0 qs.

(** Ranking order of the screener: [a] may stand before [b]. *)
Definition score_ge (a b : Row) : Prop := (score b <= score a)%Z.

(** The rows of [l] whose score is [s], in the order they have in [l]. *)
Definition with_score (s : Z) (l : list Row) : list Row :=
  filter (fun r => score r = s) l.

(** [r] is the largest (smallest) number of [xs], NaN entries set aside;
    NaN when [xs] holds no number. *)
Definition is_max_of (r : fl) (xs : list fl) : Prop :=
  match r with
  | Fin m => Fin m ∈ xs /\ forall q, Fin q ∈ xs -> q <= m
  | NaN => forall q, Fin q ∉ xs
  end.

Definition is_min_of (r : fl) (xs : list fl) : Prop :=
  match r with
  | Fin m => Fin m ∈ xs /\ forall q, Fin q ∈ xs -> m <= q
  | NaN => forall q, Fin q ∉ xs
  end.

(** [w] is the run of the twenty bars of [df] that come just before its
    last bar. *)
Definition twenty_before_last (df w : list Bar) : Prop :=
  (21 <= length df)%nat /\ length w = 20%nat
  /\ forall i, (i < 20)%nat -> w !! i = df !! (length df - 21 + i)%nat.

(** Sixty bars at 10 whose last bar alone reaches a high of 99. *)
Definition series_spike : list Bar :=
  flat_run 59 0 10 100 ++ [mkBar 59 (Fin 10) (Fin 99) (Fin 10) (Fin 10) (Fin 100)].

(** Sixteen closes that rise with a dip every fourth day. *)
Definition closes_zigzag : list fl :=
  map Fin [1; 2; 3; 2; 4; 5; 6; 5; 7; 8; 9; 8; 10; 11; 12; 13].

(** A result row with ticker [t] and score [s]; the other fields are
    immaterial to ranking. *)
Definition sample_row (t : string) (s : Z) : Row :=
  mkRow t s NONE (Fin 0) (Fin 0) (Fin 0) 0 [].

Definition sample_rows : list Row :=
  [sample_row "ADRO.JK" 2; sample_row "BBCA.JK" 5; sample_row "BBRI.JK" 2;
   sample_row "TLKM.JK" 0; sample_row "UNVR.JK" 5].


(** A blank-padded, mixed-case spelling of BBRI. *)
Definition padded_ticker : string :=
  String (ascii_of_nat 32) (String (ascii_of_nat 9) "BbRi" ++ String (ascii_of_nat 10) "")%string.

(** Rows as they may come from the provider: one without prices among
    complete ones. *)
Definition raw_with_gap : list Bar :=
  flat_run 3 0 10 100 ++ [mkBar 3 NaN NaN NaN NaN (Fin 0)] ++ flat_run 4 4 11 100.


(** Two rows from the provider, neither with prices. *)
Definition raw_all_gaps : list Bar :=
  [mkBar 0 NaN NaN NaN NaN (Fin 0); mkBar 1 (Fin 10) NaN (Fin 9) (Fin 10) (Fin 5)].


(** Twenty closes that rise by one a day. *)
Definition closes_rising : list Q :=
  map (fun i => inject_Z (Z.of_nat i)) (seq 1 20).


(** Whether the loop of the screener appends a row for ticker [t]: its
    fetch answers with a frame that has at least one row. *)
Definition answers_frame (fetch_ohlcv : string -> nat -> outcome (list Bar))
    (days : nat) (t : string) : bool :=
  match fetch_ohlcv t days with
  | Ok (_ :: _) => true
  | _ => false
  end.

(** A universe of three tickers of which the second has no data. *)
Definition sample_universe : list string := ["BBCA"; "XXXX"; "BBRI"]%string.

Definition sample_fetch (t : string) (days : nat) : outcome (list Bar) :=
  if String.eqb t "XXXX" then Raise "Data kosong untuk ticker XXXX.JK"
  else Ok series_breakout.


(** A universe of four tickers: the first has a short flat history, the
    third no data, the other two break out. *)
Definition sample_universe_mixed : list string :=
  ["TLKM"; "BBCA"; "XXXX"; "BBRI"]%string.

Definition sample_fetch_mixed (t : string) (days : nat) : outcome (list Bar) :=
  if String.eqb t "XXXX" then Raise "Data kosong untuk ticker XXXX.JK"
  else if String.eqb t "TLKM" then Ok (flat_run 20 0 10 100)
  else Ok series_breakout.

(** * Properties *)

(** ** The cache *)

Section CacheFacts.
Context {V : Type}.
Implicit Types (c : gmap string (item V)) (k : string) (v : V).

Lemma cache_set_lookup c k v now :
  cache_set now k v c !! k = Some (Item now v).
Proof. unfold cache_set. apply lookup_insert_eq. Qed.

Lemma cache_set_lookup_ne c k k' v now :
  k ≠ k' -> cache_set now k v c !! k' = c !! k'.
Proof. intros Hne. unfold cache_set. by apply lookup_insert_ne. Qed.

Lemma cache_get_fresh c k it now :
  c !! k = Some it -> (now - ts it <= CACHE_TTL_SECONDS)%Z ->
  cache_get now k c = (Some (value it), c).
Proof.
  intros Hk Hage. unfold cache_get. rewrite Hk.
  destruct (Z.ltb_spec CACHE_TTL_SECONDS (now - ts it)); [lia | done].
Qed.

Lemma cache_get_expired c k it now :
  c !! k = Some it -> (now - ts it > CACHE_TTL_SECONDS)%Z ->
  cache_get now k c = (None, delete k c).
Proof.
  intros Hk Hage. unfold cache_get. rewrite Hk.
  destruct (Z.ltb_spec CACHE_TTL_SECONDS (now - ts it)); [done | lia].
Qed.

Lemma cache_get_missing c k now :
  c !! k = None -> cache_get now k c = (None, c).
Proof. intros Hk. unfold cache_get. by rewrite Hk. Qed.

(** Whatever [cache_get] leaves in the dictionary was there before,
    with the same timestamp and value. *)
Lemma cache_get_keeps_items c k k' it now :
  (cache_get now k c).2 !! k' = Some it -> c !! k' = Some it.
Proof.
  unfold cache_get. destruct (c !! k) as [it0|] eqn:Hk; [|done].
  destruct (CACHE_TTL_SECONDS <? now - ts it0)%Z; [|done].
  simpl. rewrite lookup_delete_Some. by intros [_ ?].
Qed.

(** C7.  The cache contract: a [cache_get] no later than 600 seconds
    after [cache_set k v] returns [v]; a [cache_get] that finds an item
    older than 600 seconds returns nothing and deletes it; [cache_set]
    overwrites whatever was stored under the key and touches no other
    key; and no [cache_get] changes the timestamp of an item it leaves
    behind. *)
Theorem cache_contract c k v (t t' : Z) :
  CACHE_TTL_SECONDS = 600%Z
  /\ ((t' - t <= CACHE_TTL_SECONDS)%Z ->
      cache_get t' k (cache_set t k v c) = (Some v, cache_set t k v c))
  /\ (forall it, c !! k = Some it -> (t' - ts it > CACHE_TTL_SECONDS)%Z ->
      cache_get t' k c = (None, delete k c)
      /\ (delete k c : gmap string (item V)) !! k = None)
  /\ (cache_set t k v c !! k = Some (Item t v)
      /\ forall k', k ≠ k' -> cache_set t k v c !! k' = c !! k')
  /\ (forall k' it, (cache_get t' k c).2 !! k' = Some it -> c !! k' = Some it).
Proof.
  split; [reflexivity|]. split; [|split; [|split]].
  - intros Hage.
    by apply (cache_get_fresh _ _ (Item t v)); [apply cache_set_lookup|].
  - intros it Hk Hage. split; [by eapply cache_get_expired|].
    apply lookup_delete_eq.
  - split; [apply cache_set_lookup|]. intros k' Hne.
    by apply cache_set_lookup_ne.
  - intros k' it. apply cache_get_keeps_items.
Qed.
End CacheFacts.

Lemma cache_contract_witness :
  cache_get 600 "ohlcv:BBRI.JK:240" (cache_set 0 "ohlcv:BBRI.JK:240" 7%nat ∅)
    = (Some 7%nat, cache_set 0 "ohlcv:BBRI.JK:240" 7%nat ∅)
  /\ cache_get 601 "ohlcv:BBRI.JK:240" (cache_set 0 "ohlcv:BBRI.JK:240" 7%nat ∅)
    = (None, delete "ohlcv:BBRI.JK:240" (cache_set 0 "ohlcv:BBRI.JK:240" 7%nat ∅)).
Proof.
  split.
  - apply (cache_contract ∅ "ohlcv:BBRI.JK:240" 7%nat 0 600). vm_compute. discriminate.
  - eapply (cache_contract (cache_set 0 "ohlcv:BBRI.JK:240" 7%nat ∅)
              "ohlcv:BBRI.JK:240" 7%nat 0 601).
    + apply cache_set_lookup.
    + reflexivity.
Defined.

(** ** Ticker normalisation *)

Lemma upper_char_idem a : upper_char (upper_char a) = upper_char a.
Proof. destruct a as [[] [] [] [] [] [] [] []]; reflexivity. Qed.

Lemma is_space_upper_char a : is_space (upper_char a) = is_space a.
Proof. destruct a as [[] [] [] [] [] [] [] []]; reflexivity. Qed.

Lemma upper_idem s : upper (upper s) = upper s.
Proof.
  unfold upper. rewrite map_map. apply map_ext. intros a. apply upper_char_idem.
Qed.

Lemma upper_app s1 s2 : upper (s1 ++ s2) = upper s1 ++ upper s2.
Proof. apply map_app. Qed.

Lemma lstrip_upper s : lstrip (upper s) = upper (lstrip s).
Proof.
  induction s as [|a s IH]; [reflexivity|]. simpl.
  rewrite is_space_upper_char. destruct (is_space a); [exact IH | reflexivity].
Qed.

Lemma rstrip_upper s : rstrip (upper s) = upper (rstrip s).
Proof.
  unfold rstrip, upper. rewrite <- map_rev.
  fold (upper (rev s)). rewrite lstrip_upper. unfold upper. by rewrite map_rev.
Qed.

Lemma strip_upper s : strip (upper s) = upper (strip s).
Proof. unfold strip. by rewrite lstrip_upper, rstrip_upper. Qed.

(** [lstrip] drops a run of blanks from the front and nothing else. *)
Lemma lstrip_split s :
  exists p, s = p ++ lstrip s /\ Forall (fun a => is_space a = true) p.
Proof.
  induction s as [|a s [p [Hs Hp]]]; [by exists []|]. simpl.
  destruct (is_space a) eqn:Ha.
  - exists (a :: p). split; [simpl; congruence | by constructor].
  - by exists [].
Qed.

Lemma lstrip_head s a r : lstrip s = a :: r -> is_space a = false.
Proof.
  induction s as [|b s IH]; [discriminate|]. simpl.
  destruct (is_space b) eqn:Hb; [exact IH | congruence].
Qed.

Lemma lstrip_fixed s :
  lstrip s = s <-> match s with [] => True | a :: _ => is_space a = false end.
Proof.
  destruct s as [|a s]; [done|]. split.
  - apply lstrip_head.
  - intros Ha. simpl. by rewrite Ha.
Qed.

Lemma lstrip_idem s : lstrip (lstrip s) = lstrip s.
Proof.
  apply lstrip_fixed. destruct (lstrip s) eqn:E; [done|]. by eapply lstrip_head.
Qed.

Lemma rstrip_idem s : rstrip (rstrip s) = rstrip s.
Proof. unfold rstrip. by rewrite rev_involutive, lstrip_idem. Qed.

(** [rstrip] keeps a prefix, so it cannot uncover a leading blank. *)
Lemma rstrip_prefix s : exists q, s = rstrip s ++ q.
Proof.
  destruct (lstrip_split (rev s)) as [p [Hs _]].
  exists (rev p). unfold rstrip. rewrite <- rev_app_distr, <- Hs.
  by rewrite rev_involutive.
Qed.

Lemma lstrip_rstrip s : lstrip s = s -> lstrip (rstrip s) = rstrip s.
Proof.
  intros Hs. apply lstrip_fixed. destruct (rstrip_prefix s) as [q Hq].
  destruct (rstrip s) as [|a r]; [done|].
  apply lstrip_fixed in Hs. by rewrite Hq in Hs.
Qed.

Lemma lstrip_strip s : lstrip (strip s) = strip s.
Proof. unfold strip. apply lstrip_rstrip, lstrip_idem. Qed.

Lemma rstrip_strip s : rstrip (strip s) = strip s.
Proof. unfold strip. apply rstrip_idem. Qed.

Lemma strip_idem s : strip (strip s) = strip s.
Proof. unfold strip at 1. by rewrite lstrip_strip, rstrip_strip. Qed.

Lemma chars_of_list s : chars (string_of_list_ascii s) = s.
Proof. apply list_ascii_of_string_of_list_ascii. Qed.

(** What a second pass does to the result of a first one. *)
Lemma normalised_fixed t :
  lstrip t = t -> rstrip t = t -> upper t = t ->
  _to_jk_ticker (string_of_list_ascii t) =
    if startswith (chars "^") t then string_of_list_ascii t
    else if endswith (chars ".JK") t then string_of_list_ascii t
    else string_of_list_ascii (t ++ chars ".JK").
Proof.
  intros Hl Hr Hu. unfold _to_jk_ticker. rewrite chars_of_list.
  unfold strip. by rewrite Hl, Hr, Hu.
Qed.

Lemma suffixed_clean t :
  lstrip t = t -> upper t = t ->
  lstrip (t ++ chars ".JK") = t ++ chars ".JK"
  /\ rstrip (t ++ chars ".JK") = t ++ chars ".JK"
  /\ upper (t ++ chars ".JK") = t ++ chars ".JK"
  /\ endswith (chars ".JK") (t ++ chars ".JK") = true.
Proof.
  intros Hl Hu. repeat split.
  - apply lstrip_fixed. apply lstrip_fixed in Hl. by destruct t.
  - unfold rstrip. rewrite rev_app_distr.
    change (lstrip (rev (chars ".JK") ++ rev t)) with (rev (chars ".JK") ++ rev t).
    by rewrite rev_app_distr, !rev_involutive.
  - by rewrite upper_app, Hu.
  - unfold endswith. by rewrite rev_app_distr.
Qed.

(** C8.  Normalising a ticker twice gives the same as normalising it
    once, and the three examples of the specification evaluate as
    stated. *)
Theorem to_jk_ticker_idempotent :
  (forall x, _to_jk_ticker (_to_jk_ticker x) = _to_jk_ticker x)
  /\ _to_jk_ticker "bbri" = "BBRI.JK"%string
  /\ _to_jk_ticker "^jkse" = "^JKSE"%string
  /\ _to_jk_ticker "BBRI.JK" = "BBRI.JK"%string.
Proof.
  split; [|by repeat split]. intros x. unfold _to_jk_ticker at 2 3.
  set (t := upper (strip (chars x))).
  assert (Hl : lstrip t = t) by (unfold t; by rewrite lstrip_upper, lstrip_strip).
  assert (Hr : rstrip t = t) by (unfold t; by rewrite rstrip_upper, rstrip_strip).
  assert (Hu : upper t = t) by apply upper_idem.
  destruct (startswith (chars "^") t) eqn:Hhat.
  { rewrite normalised_fixed by done. by rewrite Hhat. }
  destruct (endswith (chars ".JK") t) eqn:Hjk.
  { rewrite normalised_fixed by done. by rewrite Hhat, Hjk. }
  destruct (suffixed_clean t Hl Hu) as (Hl' & Hr' & Hu' & Hjk').
  rewrite normalised_fixed by done. rewrite Hjk'.
  destruct t as [|a t']; [reflexivity|]. simpl in Hhat |- *. by rewrite Hhat.
Qed.

(** ** Comparisons on doubles *)

Lemma Qlt_bool_iff x y : Qlt_bool x y = true <-> x < y.
Proof.
  unfold Qlt_bool. rewrite negb_true_iff, <- not_true_iff_false, Qle_bool_iff.
  split; [apply Qnot_le_lt | apply Qlt_not_le].
Qed.

Lemma Qlt_bool_false_iff x y : Qlt_bool x y = false <-> y <= x.
Proof.
  unfold Qlt_bool. rewrite negb_false_iff. apply Qle_bool_iff.
Qed.

Lemma fgt_Fin a b : fgt (Fin a) (Fin b) = true <-> b < a.
Proof. apply Qlt_bool_iff. Qed.

Lemma flt_Fin a b : flt (Fin a) (Fin b) = true <-> a < b.
Proof. apply Qlt_bool_iff. Qed.

Lemma fge_Fin a b : fge (Fin a) (Fin b) = true <-> b <= a.
Proof. apply Qle_bool_iff. Qed.

Lemma fle_Fin a b : fle (Fin a) (Fin b) = true <-> a <= b.
Proof. apply Qle_bool_iff. Qed.

Lemma feq_Fin a b : feq (Fin a) (Fin b) = true <-> a == b.
Proof. apply Qeq_bool_iff. Qed.

Lemma cmp2_true f x y :
  cmp2 f x y = true -> exists a b, x = Fin a /\ y = Fin b /\ f a b = true.
Proof. destruct x as [|a], y as [|b]; try discriminate. by exists a, b. Qed.

Lemma fgt_flt_excl x y : fgt x y = true -> flt x y = false.
Proof.
  intros H. destruct (cmp2_true _ _ _ H) as (a & b & -> & -> & Hab).
  apply Qlt_bool_iff in Hab. apply Qlt_bool_false_iff. by apply Qlt_le_weak.
Qed.

(** ** The regime classifier *)

Lemma regime_status_cases (close ma20 ma50 atr_pct day_change : fl) :
  (regime_status close ma20 ma50 atr_pct day_change).1 =
    if flt close ma50 && (fge atr_pct (Fin (2 # 100)) || fle day_change (Fin (- (2 # 100))))
    then NO_TRADE_DAY
    else if fgt close ma50 && fgt ma20 ma50 then RISK_ON
    else if flt close ma50 then RISK_OFF
    else NEUTRAL.
Proof.
  unfold regime_status.
  by destruct (fgt close ma50), (fgt ma20 ma50), (flt close ma50),
    (fge atr_pct (Fin (2 # 100))), (fle day_change (Fin (- (2 # 100)))).
Qed.

Lemma market_regime_ok df lastb :
  last df = Some lastb ->
  market_regime (Ok df) =
    let close := bar_close lastb in
    let ma20 := regime_ma20 df lastb in
    let ma50 := regime_ma50 df lastb in
    let day_change := regime_day_change df lastb in
    let atr_pct := regime_atr_pct df lastb in
    let sn := regime_status close ma20 ma50 atr_pct day_change in
    mkRegime sn.1 (Some close) (Some ma20) (Some ma50)
             (Some (round2 (fmul day_change (Fin 100))))
             (Some (round2 (fmul atr_pct (Fin 100))))
             (Some (bar_date lastb)) sn.2 "^JKSE".
Proof.
  intros Hl. unfold market_regime, market_regime_try. rewrite Hl. simpl.
  by destruct (regime_status _ _ _ _ _).
Qed.

(** C4.  When the benchmark frame is not empty the classifier computes,
    and its status is NO_TRADE_DAY when close < ma50 together with
    atr_pct >= 0.02 or day_change <= -0.02; in every other case it is
    RISK_ON when close > ma50 and ma20 > ma50, RISK_OFF when close < ma50,
    and NEUTRAL when neither holds. *)
Theorem regime_status_policy (df : list Bar) (lastb : Bar) :
  last df = Some lastb ->
  let close := bar_close lastb in
  let ma20 := regime_ma20 df lastb in
  let ma50 := regime_ma50 df lastb in
  let day_change := regime_day_change df lastb in
  let atr_pct := regime_atr_pct df lastb in
  let trend_on := fgt close ma50 = true /\ fgt ma20 ma50 = true in
  let trend_off := flt close ma50 = true in
  let shock :=
    fge atr_pct (Fin (2 # 100)) = true \/ fle day_change (Fin (- (2 # 100))) = true in
  market_regime_try (Ok df) = Ok (market_regime (Ok df))
  /\ (trend_off /\ shock -> status (market_regime (Ok df)) = NO_TRADE_DAY)
  /\ (~ (trend_off /\ shock) ->
      (trend_on -> status (market_regime (Ok df)) = RISK_ON)
      /\ (trend_off -> status (market_regime (Ok df)) = RISK_OFF)
      /\ (~ trend_on -> ~ trend_off -> status (market_regime (Ok df)) = NEUTRAL)).
Proof.
  intros Hl close ma20 ma50 day_change atr_pct trend_on trend_off shock.
  split.
  { unfold market_regime, market_regime_try. rewrite Hl. simpl.
    by destruct (regime_status _ _ _ _ _). }
  rewrite (market_regime_ok df lastb Hl). cbn [status].
  rewrite regime_status_cases.
  fold close ma20 ma50 day_change atr_pct.
  subst trend_on trend_off shock. cbv zeta.
  destruct (flt close ma50) eqn:Hoff;
    destruct (fgt close ma50) eqn:Hgt;
    destruct (fgt ma20 ma50) eqn:Hma;
    destruct (fge atr_pct (Fin (2 # 100))) eqn:Hatr;
    destruct (fle day_change (Fin (- (2 # 100)))) eqn:Hday; simpl;
    try (apply fgt_flt_excl in Hgt; congruence);
    (split; [intros [? [?|?]]; congruence || reflexivity|]);
    intros Hn; repeat split; try reflexivity; try congruence; intros;
    try (exfalso; apply Hn; auto; fail); tauto || (intuition congruence).
Qed.

Lemma regime_status_policy_witness :
  status (market_regime (Ok series_zero_low)) = RISK_ON.
Proof.
  refine (proj1 (proj2 (proj2 (regime_status_policy series_zero_low
            (mkBar 59 (Fin 20) (Fin 30) (Fin 20) (Fin 30) (Fin 1000)) _)) _) _).
  - reflexivity.
  - vm_compute. intros [? [?|?]]; discriminate.
  - vm_compute. by split.
Defined.

(** C5.  Whatever is raised while the benchmark is fetched or its numbers
    are computed, [market_regime] returns: the status is UNKNOWN, the six
    value fields are [None], and the note ends with the text of the
    failure. *)
Theorem regime_degrades (fetched : outcome (list Bar)) (msg : string) :
  market_regime_try fetched = Raise msg ->
  let r := market_regime fetched in
  status r = UNKNOWN
  /\ reg_close r = None /\ reg_ma20 r = None /\ reg_ma50 r = None
  /\ day_change_pct r = None /\ atr14_pct r = None /\ reg_asof r = None
  /\ note r = [("Data IHSG belum tersedia: " ++ msg)%string]
  /\ (fetched = Raise msg
      \/ (fetched = Ok [] /\ msg = "single positional indexer is out-of-bounds"%string)).
Proof.
  intros Hfail r. subst r. unfold market_regime. rewrite Hfail.
  repeat split. destruct fetched as [df|m].
  - right. unfold market_regime_try in Hfail.
    destruct df as [|b df]; [by inversion Hfail|].
    destruct (last (b :: df)) eqn:Hl.
    + simpl in Hfail. by destruct (regime_status _ _ _ _ _).
    + by apply last_None in Hl.
  - left. simpl in Hfail. congruence.
Qed.

Lemma regime_degrades_witness :
  market_regime (Raise "No data found") = degraded "No data found"
  /\ status (market_regime (Ok [])) = UNKNOWN
  /\ note (market_regime (Ok [])) =
       ["Data IHSG belum tersedia: single positional indexer is out-of-bounds"%string].
Proof.
  split; [reflexivity|].
  destruct (regime_degrades (Ok []) "single positional indexer is out-of-bounds" eq_refl)
    as (Hs & _ & _ & _ & _ & _ & _ & Hn & _).
  exact (conj Hs Hn).
Defined.

(** ** The signal classifier: risk-reward block *)

Lemma truthy_Fin a : truthy (Fin a) = true <-> ~ a == 0.
Proof.
  unfold truthy, fne. simpl. rewrite negb_true_iff, <- not_true_iff_false.
  by rewrite Qeq_bool_iff.
Qed.

Lemma fdiv_Fin a b : ~ b == 0 -> fdiv (Fin a) (Fin b) = Fin (a / b).
Proof.
  intros Hb. simpl. destruct (Qeq_bool b 0) eqn:E; [|done].
  by apply Qeq_bool_iff in E.
Qed.

(** [risk_reward] answers exactly when both levels are present, neither
    is zero, and the entry lies above the stop. *)
Lemma risk_reward_Some entry sl tp1 tp2 r :
  risk_reward entry sl tp1 tp2 = Some r <->
  exists e s, entry = Some e /\ sl = Some s
    /\ truthy e = true /\ truthy s = true /\ fgt e s = true
    /\ r = mkRiskReward (fsub e s) (r_multiple tp1 e s) (r_multiple tp2 e s).
Proof.
  unfold risk_reward. split.
  - destruct entry as [e|]; [|done]. destruct sl as [s|]; [|done].
    destruct (truthy e) eqn:He, (truthy s) eqn:Hs, (fgt e s) eqn:Hgt; try done.
    intros [= <-]. by exists e, s.
  - intros (e & s & -> & -> & He & Hs & Hgt & ->). by rewrite He, Hs, Hgt.
Qed.

Lemma r_multiple_Fin c a b :
  ~ c == 0 -> b < a ->
  r_multiple (Some (Fin c)) (Fin a) (Fin b) = Some (Fin ((c - a) / (a - b))).
Proof.
  intros Hc Hab. unfold r_multiple.
  apply truthy_Fin in Hc. rewrite Hc. f_equal. apply fdiv_Fin.
  intros H0. apply (Qlt_irrefl b). rewrite <- (Qplus_0_l b) at 2.
  rewrite <- H0. by ring_simplify.
Qed.

(** The [rr] field of a computed signal is [risk_reward] of its four
    levels. *)
Lemma compute_signal_rr df sig :
  compute_signal df = Ok sig ->
  rr sig = risk_reward (entry sig) (sl sig) (tp1 sig) (tp2 sig).
Proof.
  unfold compute_signal. destruct (last df) as [lastb|]; [|done].
  cbv zeta.
  match goal with |- context [if ?b then _ else _] => destruct b end;
  [|match goal with |- context [if ?b then _ else _] => destruct b end];
  by intros [= <-].
Qed.

Lemma compute_signal_total df :
  df ≠ [] -> exists sig, compute_signal df = Ok sig.
Proof.
  intros Hne. unfold compute_signal.
  destruct (last df) as [lastb|] eqn:Hl; [|by apply last_None in Hl].
  cbv zeta.
  match goal with |- context [if ?b then _ else _] => destruct b end;
  [|match goal with |- context [if ?b then _ else _] => destruct b end];
  by eexists.
Qed.

Lemma r_multiple_value_eq tp e s :
  s < e -> r_multiple tp (Fin e) (Fin s) = r_multiple_value tp e s.
Proof.
  intros Hlt. destruct tp as [[|c]|]; try reflexivity.
  unfold r_multiple_value. destruct (Qeq_bool c 0) eqn:Hc.
  - unfold r_multiple, truthy, fne. simpl. by rewrite Hc.
  - apply r_multiple_Fin; [|done]. intros H0. apply Qeq_bool_iff in H0. congruence.
Qed.

(** X25.  What lines 233-239 compute.  The risk-reward block of a computed
    signal is present exactly when entry and stop-loss are both set,
    neither of them is zero, and entry > stop-loss.  When present,
    risk_per_share is entry - stop-loss, and each r_multiple is
    (tp - entry) / (entry - stop-loss) for a target that is set and not
    zero, and null otherwise. *)
Theorem risk_reward_block (df : list Bar) (sig : Signal) :
  compute_signal df = Ok sig ->
  (is_Some (rr sig) <->
     exists e s, entry sig = Some (Fin e) /\ sl sig = Some (Fin s)
       /\ ~ e == 0 /\ ~ s == 0 /\ s < e)
  /\ (forall r e s,
        rr sig = Some r -> entry sig = Some (Fin e) -> sl sig = Some (Fin s) ->
        risk_per_share r = Fin (e - s)
        /\ r_multiple_tp1 r = r_multiple_value (tp1 sig) e s
        /\ r_multiple_tp2 r = r_multiple_value (tp2 sig) e s).
Proof.
  intros Hsig. rewrite (compute_signal_rr df sig Hsig). split.
  - split.
    + intros [r Hr]. apply risk_reward_Some in Hr.
      destruct Hr as (e & s & He & Hs & Te & Ts & Hgt & _).
      destruct (cmp2_true _ _ _ Hgt) as (a & b & -> & -> & Hab).
      exists a, b. repeat split; try done.
      * by apply truthy_Fin.
      * by apply truthy_Fin.
      * by apply Qlt_bool_iff.
    + intros (e & s & He & Hs & Te & Ts & Hlt).
      eexists. apply risk_reward_Some. exists (Fin e), (Fin s).
      repeat split; try done.
      * by apply truthy_Fin.
      * by apply truthy_Fin.
      * by apply fgt_Fin.
  - intros r e s Hr He Hs. apply risk_reward_Some in Hr.
    destruct Hr as (e' & s' & He' & Hs' & _ & _ & Hgt & ->).
    rewrite He in He'. rewrite Hs in Hs'. injection He' as <-. injection Hs' as <-.
    apply fgt_Fin in Hgt. simpl. by rewrite !r_multiple_value_eq.
Qed.

Lemma risk_reward_block_witness :
  exists sig r,
    compute_signal series_breakout = Ok sig
    /\ rr sig = Some r
    /\ risk_per_share r = Fin (30 - 20)
    /\ r_multiple_tp1 r = Some (Fin ((40 - 30) / (30 - 20))).
Proof.
  destruct (compute_signal series_breakout) as [sig|] eqn:Hsig; [|by vm_compute in Hsig].
  pose proof (risk_reward_block series_breakout sig Hsig) as [_ Hval].
  vm_compute in Hsig. injection Hsig as <-.
  eexists _, _. split; [reflexivity|]. split; [reflexivity|].
  destruct (Hval _ 30 20 eq_refl eq_refl eq_refl) as (H1 & H2 & _).
  exact (conj H1 H2).
Defined.

(** C1.  The classifier on [series_zero_low]: a breakout whose entry 30
    and stop-loss 0 are both set, with entry > stop-loss, and yet no
    risk-reward block; the truth test [entry and sl] takes the stop-loss
    0.0 for a missing one. *)
Lemma risk_reward_absent_at_zero_stop :
  exists sig,
    compute_signal series_zero_low = Ok sig
    /\ setup sig = BREAKOUT
    /\ entry sig = Some (Fin 30) /\ sl sig = Some (Fin 0)
    /\ fgt (Fin 30) (Fin 0) = true
    /\ rr sig = None.
Proof. eexists. split; [vm_compute; reflexivity|]. by repeat split. Qed.

(** ** Rolling means *)

Lemma fsum_map_Fin qs : fsum (map Fin qs) = Fin (Qsum qs).
Proof.
  induction qs as [|q qs IH]; [reflexivity|].
  unfold fsum in *. simpl. by rewrite IH.
Qed.

(** A finite sum has only finite terms. *)
Lemma fsum_Fin_inv w m :
  fsum w = Fin m -> exists qs, w = map Fin qs /\ m = Qsum qs.
Proof.
  revert m. induction w as [|x w IH]; intros m Hm.
  - exists []. split; [done|]. by injection Hm.
  - unfold fsum in Hm. simpl in Hm. fold (fsum w) in Hm.
    destruct x as [|q]; [done|]. destruct (fsum w) as [|m'] eqn:Hw; [done|].
    destruct (IH m' eq_refl) as (qs & -> & ->).
    exists (q :: qs). split; [done|]. by injection Hm.
Qed.

Lemma fsum_NaN_elem w : NaN ∈ w -> fsum w = NaN.
Proof.
  intros Hin. destruct (fsum w) as [|m] eqn:Hw; [done|].
  destruct (fsum_Fin_inv _ _ Hw) as (qs & -> & _).
  apply list_elem_of_fmap in Hin. by destruct Hin as (q & Hq & _).
Qed.

Lemma Qsum_nonneg qs : Forall (fun q => 0 <= q) qs -> 0 <= Qsum qs.
Proof.
  induction 1 as [|q qs Hq _ IH]; simpl; [apply Qle_refl|].
  unfold Qsum in *. simpl. lra.
Qed.

Lemma Qsum_ge_elem qs q :
  Forall (fun q => 0 <= q) qs -> q ∈ qs -> q <= Qsum qs.
Proof.
  intros Hall Hin. induction Hall as [|q' qs Hq Hall IH].
  - by apply elem_of_nil in Hin.
  - apply elem_of_cons in Hin. pose proof (Qsum_nonneg qs Hall) as Hs.
    unfold Qsum in *. simpl. destruct Hin as [->|Hin]; [lra|].
    specialize (IH Hin). lra.
Qed.

Lemma fdiv_Fin_inv x n m :
  fdiv x (of_nat n) = Fin m ->
  exists a, x = Fin a /\ n ≠ 0%nat /\ m = a / inject_Z (Z.of_nat n).
Proof.
  destruct x as [|a]; [done|]. unfold of_nat. simpl.
  destruct (Qeq_bool (inject_Z (Z.of_nat n)) 0) eqn:E; [done|].
  intros [= <-]. exists a. repeat split. intros ->. by vm_compute in E.
Qed.

Lemma rolling_mean_length n s : length (rolling_mean n s) = length s.
Proof. apply length_imap. Qed.

Lemma rolling_mean_lookup n s i x :
  s !! i = Some x ->
  rolling_mean n s !! i =
    Some (if (n <=? S i)%nat
          then fdiv (fsum (take n (drop (S i - n) s))) (of_nat n)
          else NaN).
Proof. intros Hx. unfold rolling_mean. by rewrite list_lookup_imap, Hx. Qed.

Lemma last_of_rolling_mean n s :
  s ≠ [] ->
  last_of (rolling_mean n s) =
    if (n <=? length s)%nat
    then fdiv (fsum (take n (drop (length s - n) s))) (of_nat n)
    else NaN.
Proof.
  intros Hne. unfold last_of. rewrite last_lookup, rolling_mean_length.
  destruct s as [|x0 s]; [done|]. clear Hne.
  destruct ((x0 :: s) !! pred (length (x0 :: s))) as [x|] eqn:Hx.
  - by rewrite (rolling_mean_lookup _ _ _ _ Hx).
  - apply lookup_ge_None in Hx. simpl in Hx. lia.
Qed.

(** The window that ends at the last position holds the last value. *)
Lemma last_in_tail_window {A} n (s : list A) x :
  (0 < n)%nat -> last s = Some x -> x ∈ take n (drop (length s - n) s).
Proof.
  intros Hn Hl. rewrite last_lookup in Hl.
  apply list_elem_of_lookup. exists (pred (length s) - (length s - n))%nat.
  assert (Hlen : (0 < length s)%nat).
  { apply lookup_lt_Some in Hl. lia. }
  rewrite lookup_take_lt by lia. rewrite lookup_drop. rewrite <- Hl. f_equal. lia.
Qed.

(** ** The screener: score *)

Lemma score_of_sum sig :
  score_of sig =
    (bonus (trend_ok sig) 2
     + bonus (Setup_eqb (setup sig) BREAKOUT) 3
     + bonus (Setup_eqb (setup sig) PULLBACK_MA20) 2
     + bonus (truthy (volume sig) && truthy (volma20 sig)
              && fgt (volume sig) (volma20 sig)) 1)%Z.
Proof.
  unfold score_of.
  by destruct (trend_ok sig), (Setup_eqb (setup sig) BREAKOUT),
    (Setup_eqb (setup sig) PULLBACK_MA20),
    (truthy (volume sig) && truthy (volma20 sig) && fgt (volume sig) (volma20 sig)).
Qed.

Lemma compute_signal_volume df sig lastb :
  last df = Some lastb -> compute_signal df = Ok sig ->
  volume sig = nan_default (bar_volume lastb) (Fin 0)
  /\ volma20 sig =
       nan_default (last_of (sma (col bar_volume df) 20)) (volume sig).
Proof.
  intros Hl. unfold compute_signal. rewrite Hl. cbv zeta.
  match goal with |- context [if ?b then _ else _] => destruct b end;
  [|match goal with |- context [if ?b then _ else _] => destruct b end];
  by intros [= <-].
Qed.

Lemma fgt_irrefl x : fgt x x = false.
Proof.
  destruct x as [|a]; [done|]. apply Qlt_bool_false_iff, Qle_refl.
Qed.

(** On a frame without negative volumes the two truth tests in front of
    [volume > volma20] never change the outcome. *)
Lemma volume_guard_redundant df sig :
  volumes_nonneg df -> compute_signal df = Ok sig ->
  truthy (volume sig) && truthy (volma20 sig) && fgt (volume sig) (volma20 sig)
  = fgt (volume sig) (volma20 sig).
Proof.
  intros Hnn Hsig.
  destruct (fgt (volume sig) (volma20 sig)) eqn:Hgt; [|by rewrite andb_false_r].
  destruct (last df) as [lastb|] eqn:Hl; [|by unfold compute_signal in Hsig; rewrite Hl in Hsig].
  destruct (compute_signal_volume df sig lastb Hl Hsig) as [Hvol Hma].
  assert (Hne : col bar_volume df ≠ []).
  { intros E. apply fmap_nil_inv in E. subst df. done. }
  unfold sma in Hma. rewrite (last_of_rolling_mean _ _ Hne) in Hma.
  destruct (20 <=? length (col bar_volume df))%nat eqn:Hlen;
    [|simpl in Hma; rewrite Hma, fgt_irrefl in Hgt; done].
  set (w := take 20 (drop (length (col bar_volume df) - 20) (col bar_volume df))) in Hma.
  destruct (fdiv (fsum w) (of_nat 20)) as [|m] eqn:Hm;
    [simpl in Hma; rewrite Hma, fgt_irrefl in Hgt; done|].
  simpl in Hma.
  destruct (fdiv_Fin_inv _ _ _ Hm) as (a & Ha & _ & Hma').
  destruct (fsum_Fin_inv _ _ Ha) as (qs & Hw & ->).
  assert (Hin : bar_volume lastb ∈ w).
  { apply last_in_tail_window; [lia|]. unfold col.
    rewrite fmap_last, Hl. done. }
  assert (Hpos : Forall (fun q => 0 <= q) qs).
  { apply Forall_forall. intros q Hq.
    assert (Hq' : Fin q ∈ col bar_volume df).
    { assert (Hqw : Fin q ∈ w) by (rewrite Hw; by apply list_elem_of_fmap_2).
      unfold w in Hqw. by apply subseteq_take, subseteq_drop in Hqw. }
    unfold col in Hq'. apply list_elem_of_fmap in Hq'. destruct Hq' as (b & Hb & Hbin).
    unfold volumes_nonneg in Hnn. rewrite Forall_forall in Hnn.
    destruct (Hnn b Hbin) as [E | (v & E & Hv)]; congruence. }
  rewrite Hw in Hin. apply list_elem_of_fmap in Hin. destruct Hin as (v & Hv & Hvin).
  rewrite Hv in Hvol. simpl in Hvol.
  pose proof (Qsum_ge_elem qs v Hpos Hvin) as Hge.
  assert (H0v : 0 <= v) by (rewrite Forall_forall in Hpos; by apply Hpos).
  unfold nan_default in Hvol, Hma. simpl in Hvol, Hma.
  rewrite Hvol, Hma in Hgt |- *. apply fgt_Fin in Hgt.
  change (inject_Z (Z.of_nat 20)) with 20 in Hma'.
  assert (Hs : Qsum qs == m * 20) by (rewrite Hma'; field).
  assert (Tv : truthy (Fin v) = true) by (apply truthy_Fin; lra).
  assert (Tm : truthy (Fin m) = true) by (apply truthy_Fin; lra).
  by rewrite Tv, Tm.
Qed.

(** The score as lines 429-437 compute it: 2 for the trend, plus 3 for a
    breakout, plus 2 for a pullback, plus 1 when volume and volma20 are
    both non-zero and volume > volma20. *)
Lemma screener_score_as_coded (fetch_ohlcv : string -> nat -> outcome (list Bar))
    (days : nat) (t : string) (row : Row) :
  screen_ticker fetch_ohlcv days t = Some row ->
  exists df sig,
    fetch_ohlcv t days = Ok df /\ compute_signal df = Ok sig
    /\ row_setup row = setup sig
    /\ score row =
         (bonus (trend_ok sig) 2
          + bonus (Setup_eqb (setup sig) BREAKOUT) 3
          + bonus (Setup_eqb (setup sig) PULLBACK_MA20) 2
          + bonus (truthy (volume sig) && truthy (volma20 sig)
                   && fgt (volume sig) (volma20 sig)) 1)%Z.
Proof.
  unfold screen_ticker. intros Hrow.
  destruct (fetch_ohlcv t days) as [df|] eqn:Hf; [|done].
  destruct (compute_signal df) as [sig|] eqn:Hsig; [|done].
  injection Hrow as <-. exists df, sig. repeat split; try done.
  apply score_of_sum.
Qed.

(** C2.  A ticker whose frame is fetched and classified, the volumes of
    the frame being not negative as the data model has them, gets as its
    score the sum of 2 if trend_ok, 3 if the setup is BREAKOUT, 2 if it
    is PULLBACK_MA20, and 1 if the latest volume > volma20.  The two
    truth tests the code puts in front of volume > volma20 never withhold
    the point on such a frame: a volume above the mean makes both
    non-zero. *)
Theorem screener_score (fetch_ohlcv : string -> nat -> outcome (list Bar))
    (days : nat) (t : string) (df : list Bar) (row : Row) :
  fetch_ohlcv t days = Ok df -> volumes_nonneg df ->
  screen_ticker fetch_ohlcv days t = Some row ->
  exists sig,
    compute_signal df = Ok sig
    /\ row_setup row = setup sig
    /\ score row =
         (bonus (trend_ok sig) 2
          + bonus (Setup_eqb (setup sig) BREAKOUT) 3
          + bonus (Setup_eqb (setup sig) PULLBACK_MA20) 2
          + bonus (fgt (volume sig) (volma20 sig)) 1)%Z
    /\ (fgt (volume sig) (volma20 sig) = true ->
        truthy (volume sig) = true /\ truthy (volma20 sig) = true).
Proof.
  intros Hf Hnn Hrow.
  destruct (screener_score_as_coded _ _ _ _ Hrow) as (df' & sig & Hf' & Hsig & Hs & Hscore).
  rewrite Hf in Hf'. injection Hf' as <-.
  pose proof (volume_guard_redundant df sig Hnn Hsig) as Hguard.
  exists sig. split; [done|]. split; [done|]. split.
  - by rewrite Hscore, Hguard.
  - intros Hgt. rewrite Hgt, andb_true_r in Hguard.
    by apply andb_true_iff in Hguard.
Qed.

Lemma screener_score_witness :
  exists row,
    screen_ticker (fun _ _ => Ok series_breakout) 240 "bbri" = Some row
    /\ score row = 6%Z.
Proof.
  assert (Hnn : volumes_nonneg series_breakout).
  { apply Forall_lookup. intros i b Hb.
    do 60 (destruct i as [|i];
           [injection Hb as <-; right; eexists; split; [reflexivity | discriminate]|]).
    done. }
  destruct (screen_ticker (fun _ _ => Ok series_breakout) 240 "bbri") as [row|] eqn:Hrow;
    [|by vm_compute in Hrow].
  destruct (screener_score (fun _ _ => Ok series_breakout) 240 "bbri" series_breakout row
              eq_refl Hnn Hrow) as (sig & Hsig & _ & Hscore & _).
  vm_compute in Hsig. injection Hsig as <-.
  exists row. split; [reflexivity|]. exact Hscore.
Defined.

(** Outside the data model: [series_signed_volume] has a volume of -1,
    so that the latest volume 1 is above a 20-day mean of 0; there the
    truth test on volma20 withholds the point. *)
Lemma volume_bonus_withheld_at_zero_mean :
  exists sig,
    compute_signal series_signed_volume = Ok sig
    /\ volume sig = Fin 1 /\ feq (volma20 sig) (Fin 0) = true
    /\ fgt (volume sig) (volma20 sig) = true
    /\ score_of sig = 0%Z
    /\ spec_score sig = 1%Z.
Proof. eexists. split; [vm_compute; reflexivity|]. by repeat split. Qed.

(** ** The screener: ranking *)

Lemma insert_desc_perm x l : insert_desc x l ≡ₚ x :: l.
Proof.
  induction l as [|y l IH]; [done|]. simpl.
  destruct (score y <=? score x)%Z; [done|].
  rewrite IH. apply Permutation_swap.
Qed.

Lemma sort_desc_perm l : sort_desc l ≡ₚ l.
Proof.
  induction l as [|x l IH]; [done|]. simpl.
  by rewrite insert_desc_perm, IH.
Qed.

Lemma insert_desc_sorted x l :
  StronglySorted score_ge l -> StronglySorted score_ge (insert_desc x l).
Proof.
  induction 1 as [|y l Hl IH Hy]; simpl.
  - repeat constructor.
  - destruct (Z.leb_spec (score y) (score x)) as [Hle|Hlt].
    + constructor; [by constructor|]. constructor; [done|].
      eapply Forall_impl; [exact Hy|]. unfold score_ge. intros z Hz. lia.
    + constructor; [done|]. rewrite insert_desc_perm.
      constructor; [unfold score_ge; lia | done].
Qed.

Lemma sort_desc_sorted l : StronglySorted score_ge (sort_desc l).
Proof.
  induction l as [|x l IH]; simpl; [constructor | by apply insert_desc_sorted].
Qed.

Lemma with_score_cons s x l :
  with_score s (x :: l) =
    if decide (score x = s) then x :: with_score s l else with_score s l.
Proof. unfold with_score. by rewrite filter_cons. Qed.

Lemma insert_desc_with_score s x l :
  with_score s (insert_desc x l) = with_score s (x :: l).
Proof.
  induction l as [|y l IH]; [done|]. simpl.
  destruct (Z.leb_spec (score y) (score x)) as [Hle|Hlt]; [done|].
  rewrite with_score_cons, IH, !with_score_cons.
  repeat case_decide; try done. lia.
Qed.

Lemma sort_desc_with_score s l : with_score s (sort_desc l) = with_score s l.
Proof.
  induction l as [|x l IH]; [done|]. simpl.
  by rewrite insert_desc_with_score, !with_score_cons, IH.
Qed.

Lemma sorted_lookup_le l i j r1 r2 :
  StronglySorted score_ge l -> (i < j)%nat ->
  l !! i = Some r1 -> l !! j = Some r2 -> (score r2 <= score r1)%Z.
Proof.
  intros Hl. revert i j. induction Hl as [|x l Hl IH Hx]; intros i j Hij H1 H2.
  - by rewrite lookup_nil in H1.
  - destruct j as [|j]; [lia|]. destruct i as [|i].
    + injection H1 as <-. simpl in H2. rewrite Forall_forall in Hx.
      apply Hx. by eapply list_elem_of_lookup_2.
    + simpl in H1, H2. apply (IH i j); [lia | done | done].
Qed.

(** A list sorted by descending score is determined by its runs of equal
    score: two stable sorts of one list agree. *)
Lemma stable_sort_unique l1 l2 :
  StronglySorted score_ge l1 -> StronglySorted score_ge l2 ->
  (forall s, with_score s l1 = with_score s l2) -> l1 = l2.
Proof.
  intros H1. revert l2. induction H1 as [|x l1 H1 IH Hx]; intros l2 H2 Heq.
  - destruct l2 as [|y l2]; [done|]. specialize (Heq (score y)).
    rewrite with_score_cons in Heq. by case_decide.
  - destruct H2 as [|y l2 H2 Hy].
    { specialize (Heq (score x)). rewrite with_score_cons in Heq. by case_decide. }
    rewrite Forall_forall in Hx, Hy.
    assert (Hxy : score x = score y).
    { pose proof (Heq (score x)) as Ex. pose proof (Heq (score y)) as Ey.
      rewrite !with_score_cons in Ex, Ey.
      destruct (decide (score x = score y)) as [|Hne]; [done|]. exfalso.
      destruct (decide (score x = score x)) as [_|]; [|done].
      destruct (decide (score y = score y)) as [_|]; [|done].
      destruct (decide (score y = score x)) as [|_]; [congruence|].
      assert (Hxin : x ∈ l2).
      { assert (Hin : x ∈ with_score (score x) l2) by (rewrite <- Ex; left).
        by apply list_elem_of_filter in Hin as [_ ?]. }
      assert (Hyin : y ∈ l1).
      { assert (Hin : y ∈ with_score (score y) l1) by (rewrite Ey; left).
        by apply list_elem_of_filter in Hin as [_ ?]. }
      specialize (Hx y Hyin). specialize (Hy x Hxin). unfold score_ge in *. lia. }
    pose proof (Heq (score x)) as Ex. rewrite !with_score_cons in Ex.
    rewrite decide_True in Ex by done. rewrite decide_True in Ex by done.
    injection Ex as <- Ex. f_equal. apply IH; [done|].
    intros s. specialize (Heq s). rewrite !with_score_cons in Heq.
    case_decide; [by injection Heq | done].
Qed.

(** The ranking [sort_desc] computes, cut to 25 rows. *)
Lemma sort_desc_ranking (rows : list Row) :
  let sorted := sort_desc rows in
  let returned := take 25 sorted in
  sorted ≡ₚ rows
  /\ (forall i j r1 r2, (i < j)%nat ->
        returned !! i = Some r1 -> returned !! j = Some r2 ->
        (score r2 <= score r1)%Z)
  /\ (forall s, with_score s sorted = with_score s rows)
  /\ (forall s, with_score s returned `prefix_of` with_score s rows)
  /\ (length returned <= 25)%nat
  /\ (forall l, StronglySorted score_ge l ->
        (forall s, with_score s l = with_score s rows) -> l = sorted).
Proof.
  intros sorted returned. subst sorted returned.
  split; [apply sort_desc_perm|]. split; [|split; [|split; [|split]]].
  - intros i j r1 r2 Hij H1 H2.
    apply lookup_take_Some in H1 as [H1 _]. apply lookup_take_Some in H2 as [H2 _].
    eapply sorted_lookup_le; [apply sort_desc_sorted | exact Hij | done | done].
  - intros s. apply sort_desc_with_score.
  - intros s. rewrite <- (sort_desc_with_score s rows).
    rewrite <- (take_drop 25 (sort_desc rows)) at 2.
    unfold with_score. rewrite filter_app. by eexists.
  - rewrite length_take. lia.
  - intros l Hl Hst. apply stable_sort_unique; [done | apply sort_desc_sorted |].
    intros s. by rewrite sort_desc_with_score.
Qed.

(** X24.  The rows stand in the order of the universe list: the loop
    appends one row per ticker that did not fail, under the ticker's
    normal form. *)
Lemma screener_results_order fetch_ohlcv days tickers :
  (row_ticker <$> screener_results fetch_ohlcv days tickers)
    `sublist_of` (_to_jk_ticker <$> tickers).
Proof.
  unfold screener_results. induction tickers as [|t tickers IH]; [done|]. simpl.
  destruct (screen_ticker fetch_ohlcv days t) as [row|] eqn:Hrow.
  - simpl. assert (row_ticker row = _to_jk_ticker t) as ->.
    { unfold screen_ticker in Hrow.
      destruct (fetch_ohlcv t days) as [df|]; [|done].
      destruct (compute_signal df); [|done]. by injection Hrow as <-. }
    by apply sublist_skip.
  - by apply sublist_cons.
Qed.

(** The ["top"] and ["count"] fields of the screener's answer. *)
Lemma api_screener_top tickers_lq45 fetch_ohlcv universe days resp :
  api_screener tickers_lq45 fetch_ohlcv universe days = Ok resp ->
  top resp = take 25 (sort_desc (screener_results fetch_ohlcv days tickers_lq45))
  /\ count resp = length (screener_results fetch_ohlcv days tickers_lq45).
Proof.
  unfold api_screener, load_universe.
  destruct (String.eqb _ "LQ45"); [|done]. intros [= <-]. split; [done|]. simpl.
  apply Permutation_length, sort_desc_perm.
Qed.

Lemma screen_ticker_row_ticker fetch_ohlcv days t row :
  screen_ticker fetch_ohlcv days t = Some row -> row_ticker row = _to_jk_ticker t.
Proof.
  unfold screen_ticker. destruct (fetch_ohlcv t days) as [df|]; [|done].
  destruct (compute_signal df); [|done]. by intros [= <-].
Qed.

(** Mapping the results of [omap] keeps the order of the list they come
    from. *)
Lemma omap_sublist {A B C} (f : A -> option B) (g : B -> C) (h : A -> C) (l : list A) :
  (forall a b, f a = Some b -> g b = h a) ->
  (g <$> omap f l) `sublist_of` (h <$> l).
Proof.
  intros Hfg. induction l as [|a l IH]; [done|].
  change (omap f (a :: l))
    with (match f a with Some b => b :: omap f l | None => omap f l end).
  rewrite (fmap_cons h). destruct (f a) as [b|] eqn:Hb.
  - rewrite fmap_cons, (Hfg a b Hb). by apply sublist_skip.
  - by apply sublist_cons.
Qed.

(** C9.  In an answer of the screener, [top] is what comes of the result
    rows, which stand in the order of the universe list, by sorting them
    on descending score and keeping the first 25: scores never increase
    along [top]; rows of equal score keep in [top] the order they had
    among the result rows, hence the order of their tickers in the
    universe list; [top] has at most 25 rows; and [top] followed by the
    rows left out is the one stable descending ordering of the result
    rows, nothing being left out unless [top] is full. *)
Theorem screener_ranking (tickers_lq45 : list string)
    (fetch_ohlcv : string -> nat -> outcome (list Bar))
    (universe : string) (days : nat) (resp : Screener) :
  api_screener tickers_lq45 fetch_ohlcv universe days = Ok resp ->
  let rows := screener_results fetch_ohlcv days tickers_lq45 in
  (row_ticker <$> rows) `sublist_of` (_to_jk_ticker <$> tickers_lq45)
  /\ (forall i j r1 r2, (i < j)%nat ->
        top resp !! i = Some r1 -> top resp !! j = Some r2 ->
        (score r2 <= score r1)%Z)
  /\ (forall s, with_score s (top resp) `prefix_of` with_score s rows)
  /\ (length (top resp) <= 25)%nat
  /\ exists rest,
       top resp ++ rest ≡ₚ rows
       /\ StronglySorted score_ge (top resp ++ rest)
       /\ (forall s, with_score s (top resp ++ rest) = with_score s rows)
       /\ (forall l, StronglySorted score_ge l ->
             (forall s, with_score s l = with_score s rows) -> l = top resp ++ rest)
       /\ (rest ≠ [] -> length (top resp) = 25%nat).
Proof.
  intros Hresp rows.
  destruct (api_screener_top _ _ _ _ _ Hresp) as [Htop _]. fold rows in Htop.
  destruct (sort_desc_ranking rows) as (Hperm & Hdesc & Hstable & Hprefix & Hlen & Huniq).
  rewrite Htop. split; [|split; [|split; [|split]]]; try done.
  - apply omap_sublist. intros t row. apply screen_ticker_row_ticker.
  - exists (drop 25 (sort_desc rows)). rewrite take_drop.
    split; [done|]. split; [apply sort_desc_sorted|]. split; [done|].
    split; [done|]. intros Hrest. rewrite length_take.
    destruct (Nat.le_gt_cases (length (sort_desc rows)) 25) as [Hle|Hgt]; [|lia].
    by rewrite drop_ge in Hrest.
Qed.

Lemma screener_ranking_witness :
  exists resp,
    api_screener sample_universe_mixed sample_fetch_mixed "LQ45" 240 = Ok resp
    /\ row_ticker <$> top resp = ["BBCA.JK"; "BBRI.JK"; "TLKM.JK"]%string
    /\ score <$> top resp = [6; 6; 0]%Z
    /\ (length (top resp) <= 25)%nat.
Proof.
  destruct (api_screener sample_universe_mixed sample_fetch_mixed "LQ45" 240)
    as [resp|] eqn:Hresp; [|by vm_compute in Hresp].
  destruct (screener_ranking _ _ _ _ _ Hresp) as (_ & _ & _ & Hlen & _).
  exists resp. split; [done|].
  vm_compute in Hresp. injection Hresp as <-.
  split; [reflexivity|]. split; [reflexivity | exact Hlen].
Defined.

(** ** Pivots *)

Lemma nanmax_is_max xs : is_max_of (nanmax xs) xs.
Proof.
  induction xs as [|x xs IH]; simpl.
  - intros q Hq. by apply elem_of_nil in Hq.
  - fold (nanmax xs). destruct x as [|a]; simpl.
    + destruct (nanmax xs) as [|m]; simpl in *.
      * intros q Hq. apply elem_of_cons in Hq as [?|Hq]; [done | by apply (IH q)].
      * destruct IH as [Hin Hub]. split; [by right|].
        intros q Hq. apply elem_of_cons in Hq as [?|Hq]; [done | by apply Hub].
    + destruct (nanmax xs) as [|m]; simpl in *.
      * split; [by left|]. intros q Hq.
        apply elem_of_cons in Hq as [[= ->]|Hq]; [apply Qle_refl | by apply IH in Hq].
      * destruct IH as [Hin Hub]. destruct (Qlt_bool a m) eqn:Ham; simpl.
        -- apply Qlt_bool_iff in Ham. split; [by right|]. intros q Hq.
           apply elem_of_cons in Hq as [[= ->]|Hq]; [by apply Qlt_le_weak | by apply Hub].
        -- apply Qlt_bool_false_iff in Ham. split; [by left|]. intros q Hq.
           apply elem_of_cons in Hq as [[= ->]|Hq]; [apply Qle_refl|].
           eapply Qle_trans; [by apply Hub | done].
Qed.

Lemma nanmin_is_min xs : is_min_of (nanmin xs) xs.
Proof.
  induction xs as [|x xs IH]; simpl.
  - intros q Hq. by apply elem_of_nil in Hq.
  - fold (nanmin xs). destruct x as [|a]; simpl.
    + destruct (nanmin xs) as [|m]; simpl in *.
      * intros q Hq. apply elem_of_cons in Hq as [?|Hq]; [done | by apply (IH q)].
      * destruct IH as [Hin Hlb]. split; [by right|].
        intros q Hq. apply elem_of_cons in Hq as [?|Hq]; [done | by apply Hlb].
    + destruct (nanmin xs) as [|m]; simpl in *.
      * split; [by left|]. intros q Hq.
        apply elem_of_cons in Hq as [[= ->]|Hq]; [apply Qle_refl | by apply IH in Hq].
      * destruct IH as [Hin Hlb]. destruct (Qlt_bool m a) eqn:Ham; simpl.
        -- apply Qlt_bool_iff in Ham. split; [by right|]. intros q Hq.
           apply elem_of_cons in Hq as [[= ->]|Hq]; [by apply Qlt_le_weak | by apply Hlb].
        -- apply Qlt_bool_false_iff in Ham. split; [by left|]. intros q Hq.
           apply elem_of_cons in Hq as [[= ->]|Hq]; [apply Qle_refl|].
           eapply Qle_trans; [done | by apply Hlb].
Qed.

Lemma iloc_tail_window (df : list Bar) :
  (22 <= length df)%nat -> twenty_before_last df (iloc_tail 21 df).
Proof.
  intros Hlen. unfold twenty_before_last, iloc_tail. split; [lia|]. split.
  - rewrite length_take, length_drop. lia.
  - intros i Hi. rewrite lookup_take_lt by lia. by rewrite lookup_drop.
Qed.

Lemma twenty_before_last_elem df w b :
  twenty_before_last df w -> b ∈ w ->
  exists i, (i < length df - 1)%nat /\ df !! i = Some b.
Proof.
  intros (Hdf & Hlen & Hw) Hb. apply list_elem_of_lookup in Hb as [i Hi].
  assert (Hi20 : (i < 20)%nat) by (apply lookup_lt_Some in Hi; lia).
  rewrite (Hw i Hi20) in Hi. exists (length df - 21 + i)%nat. split; [|done].
  apply lookup_lt_Some in Hi. lia.
Qed.

Lemma pivot_high_long df :
  (22 <= length df)%nat ->
  pivot_high df 20 = nanmax (col bar_high (iloc_tail 21 df)).
Proof.
  intros Hlen. unfold pivot_high.
  destruct (Nat.ltb_spec (length df) (20 + 2)); [lia | done].
Qed.

Lemma pivot_high_short df :
  (length df < 22)%nat -> pivot_high df 20 = nanmax (col bar_high df).
Proof.
  intros Hlen. unfold pivot_high.
  destruct (Nat.ltb_spec (length df) (20 + 2)); [done | lia].
Qed.

Lemma pivot_low_long df :
  (22 <= length df)%nat ->
  pivot_low df 20 = nanmin (col bar_low (iloc_tail 21 df)).
Proof.
  intros Hlen. unfold pivot_low.
  destruct (Nat.ltb_spec (length df) (20 + 2)); [lia | done].
Qed.

Lemma pivot_low_short df :
  (length df < 22)%nat -> pivot_low df 20 = nanmin (col bar_low df).
Proof.
  intros Hlen. unfold pivot_low.
  destruct (Nat.ltb_spec (length df) (20 + 2)); [done | lia].
Qed.

(** With at least 22 bars, a last high above every earlier high is not
    the resistance. *)
Lemma pivot_high_excludes_last df lastb :
  (22 <= length df)%nat -> last df = Some lastb ->
  (forall i b, (i < length df - 1)%nat -> df !! i = Some b ->
     fgt (bar_high lastb) (bar_high b) = true) ->
  feq (pivot_high df 20) (bar_high lastb) = false
  /\ pivot_high df 20 ≠ bar_high lastb.
Proof.
  intros Hlen Hl Hgt. rewrite pivot_high_long by done.
  pose proof (nanmax_is_max (col bar_high (iloc_tail 21 df))) as Hmax.
  destruct (nanmax _) as [|m].
  - split; [done|]. intros E.
    destruct (df !! 0%nat) as [b|] eqn:Hb; [|apply lookup_ge_None in Hb; lia].
    assert (H0 := Hgt 0%nat b ltac:(lia) Hb). by rewrite <- E in H0.
  - destruct Hmax as [Hin _]. unfold col in Hin.
    apply list_elem_of_fmap in Hin as (b & Hb & Hbin).
    destruct (twenty_before_last_elem df _ b (iloc_tail_window df Hlen) Hbin)
      as (i & Hi & Hdf).
    specialize (Hgt i b Hi Hdf). rewrite <- Hb in Hgt.
    destruct (bar_high lastb) as [|h]; [done|]. apply fgt_Fin in Hgt.
    assert (Hne : feq (Fin m) (Fin h) = false).
    { apply not_true_iff_false. rewrite feq_Fin. intros E.
      rewrite E in Hgt. by apply Qlt_irrefl in Hgt. }
    split; [done|]. intros [= ->]. rewrite <- not_true_iff_false, feq_Fin in Hne.
    by apply Hne.
Qed.

(** C3.  With 22 bars or more, resistance is the maximum high, and
    support the minimum low, of the twenty bars just before the last one;
    with fewer than 22 bars they are the maximum high and minimum low of
    the whole series, last bar included.  With more than 22 bars, a last
    high strictly above every other high is not the resistance. *)
Theorem pivot_windows (df : list Bar) :
  ((22 <= length df)%nat ->
     exists w, twenty_before_last df w
       /\ is_max_of (pivot_high df 20) (bar_high <$> w)
       /\ is_min_of (pivot_low df 20) (bar_low <$> w))
  /\ ((length df < 22)%nat ->
       is_max_of (pivot_high df 20) (bar_high <$> df)
       /\ is_min_of (pivot_low df 20) (bar_low <$> df))
  /\ (forall lastb,
        (22 < length df)%nat -> last df = Some lastb ->
        (forall i b, (i < length df - 1)%nat -> df !! i = Some b ->
           fgt (bar_high lastb) (bar_high b) = true) ->
        feq (pivot_high df 20) (bar_high lastb) = false
        /\ pivot_high df 20 ≠ bar_high lastb).
Proof.
  split; [|split].
  - intros Hlen. exists (iloc_tail 21 df). split; [by apply iloc_tail_window|].
    rewrite pivot_high_long, pivot_low_long by done.
    split; [apply nanmax_is_max | apply nanmin_is_min].
  - intros Hlen. rewrite pivot_high_short, pivot_low_short by done.
    split; [apply nanmax_is_max | apply nanmin_is_min].
  - intros lastb Hlen. apply pivot_high_excludes_last. lia.
Qed.

Lemma pivot_windows_witness :
  (exists w, twenty_before_last series_spike w
     /\ is_max_of (pivot_high series_spike 20) (bar_high <$> w)
     /\ is_min_of (pivot_low series_spike 20) (bar_low <$> w))
  /\ is_max_of (pivot_high series_signed_volume 20) (bar_high <$> series_signed_volume)
  /\ feq (pivot_high series_spike 20) (Fin 99) = false.
Proof.
  destruct (pivot_windows series_spike) as (Hlong & _ & Hlast).
  destruct (pivot_windows series_signed_volume) as (_ & Hshort & _).
  split; [apply Hlong; vm_compute; lia|].
  split; [apply Hshort; vm_compute; lia|].
  refine (proj1 (Hlast (mkBar 59 (Fin 10) (Fin 99) (Fin 10) (Fin 10) (Fin 100)) _ _ _)).
  - vm_compute. lia.
  - reflexivity.
  - intros i b Hi Hb. change (length series_spike - 1)%nat with 59%nat in Hi.
    do 59 (destruct i as [|i]; [injection Hb as <-; reflexivity|]). lia.
Defined.

(** ** The signal classifier: short histories *)

Lemma compute_signal_breakout df sig lastb :
  last df = Some lastb -> compute_signal df = Ok sig ->
  fgt (bar_close lastb) (pivot_high df 20) = false ->
  setup sig ≠ BREAKOUT.
Proof.
  intros Hl Hsig Hres. unfold compute_signal in Hsig. rewrite Hl in Hsig.
  cbv zeta in Hsig. rewrite Hres, andb_false_r in Hsig. simpl in Hsig.
  match type of Hsig with context [if ?b then _ else _] => destruct b end;
    by injection Hsig as <-.
Qed.

(** On a short frame of bars with high >= close, the last close is not
    above the resistance. *)
Lemma short_history_resistance df lastb :
  (length df < 22)%nat -> last df = Some lastb ->
  (forall b, b ∈ df -> fge (bar_high b) (bar_close b) = true) ->
  fgt (bar_close lastb) (pivot_high df 20) = false.
Proof.
  intros Hlen Hl Hinv.
  assert (Hin : lastb ∈ df).
  { rewrite last_lookup in Hl. by eapply list_elem_of_lookup_2. }
  specialize (Hinv lastb Hin).
  destruct (cmp2_true _ _ _ Hinv) as (h & c & Hh & Hc & Hch).
  apply Qle_bool_iff in Hch. rewrite Hc, pivot_high_short by done.
  pose proof (nanmax_is_max (col bar_high df)) as Hmax.
  assert (Hhin : Fin h ∈ col bar_high df).
  { rewrite <- Hh. by apply list_elem_of_fmap_2. }
  destruct (nanmax (col bar_high df)) as [|m]; [done|].
  destruct Hmax as [_ Hub]. apply Qlt_bool_false_iff.
  eapply Qle_trans; [exact Hch | by apply Hub].
Qed.

(** C10.  A frame of fewer than 22 bars, each with high >= close, is
    never classified as a breakout; if it is not empty it is
    classified. *)
Theorem short_history_no_breakout (df : list Bar) :
  (length df < 22)%nat ->
  (forall b, b ∈ df -> fge (bar_high b) (bar_close b) = true) ->
  (forall sig, compute_signal df = Ok sig -> setup sig ≠ BREAKOUT)
  /\ (df ≠ [] -> exists sig, compute_signal df = Ok sig).
Proof.
  intros Hlen Hinv. split; [|apply compute_signal_total].
  intros sig Hsig.
  destruct (last df) as [lastb|] eqn:Hl;
    [|by unfold compute_signal in Hsig; rewrite Hl in Hsig].
  eapply compute_signal_breakout; [exact Hl | exact Hsig |].
  by apply short_history_resistance.
Qed.

Lemma short_history_no_breakout_witness :
  exists sig, compute_signal series_signed_volume = Ok sig /\ setup sig ≠ BREAKOUT.
Proof.
  assert (Hlen : (length series_signed_volume < 22)%nat) by (vm_compute; lia).
  assert (Hinv : forall b, b ∈ series_signed_volume ->
                           fge (bar_high b) (bar_close b) = true).
  { intros b Hb. apply list_elem_of_lookup in Hb as [i Hb].
    do 20 (destruct i as [|i]; [injection Hb as <-; reflexivity|]). done. }
  destruct (short_history_no_breakout series_signed_volume Hlen Hinv) as [Hno Hex].
  destruct (Hex ltac:(discriminate)) as [sig Hsig].
  exists sig. split; [exact Hsig | by apply Hno].
Defined.

(** ** Relative strength *)

Lemma diff_length s : length (diff s) = length s.
Proof.
  destruct s as [|x t]; [done|]. simpl. rewrite length_zip_with. simpl. lia.
Qed.

Lemma diff_first s : s ≠ [] -> diff s !! 0%nat = Some NaN.
Proof. by destruct s. Qed.

Lemma clip_lower0_nonneg x q : clip_lower0 x = Fin q -> 0 <= q.
Proof.
  destruct x as [|a]; [done|]. simpl.
  destruct (Qlt_bool a 0) eqn:E; intros [= <-]; [apply Qle_refl|].
  by apply Qlt_bool_false_iff.
Qed.

Lemma neg_clip_upper0_nonneg x q : fneg (clip_upper0 x) = Fin q -> 0 <= q.
Proof.
  destruct x as [|a]; [done|]. simpl.
  destruct (Qlt_bool 0 a) eqn:E; simpl; intros [= <-]; [done|].
  apply Qlt_bool_false_iff in E. lra.
Qed.

Lemma of_nat_pos n : n ≠ 0%nat -> 0 < inject_Z (Z.of_nat n).
Proof. intros Hn. change 0 with (inject_Z 0). rewrite <- Zlt_Qlt. lia. Qed.

(** A mean of numbers that are not negative is not negative. *)
Lemma rolling_mean_nonneg n s i m :
  (forall q, Fin q ∈ s -> 0 <= q) ->
  rolling_mean n s !! i = Some (Fin m) -> 0 <= m.
Proof.
  intros Hs Hm. unfold rolling_mean in Hm. rewrite list_lookup_imap in Hm.
  destruct (s !! i) as [x|]; [|done]. simpl in Hm. injection Hm as Hm.
  destruct (n <=? S i)%nat; [|done].
  destruct (fdiv_Fin_inv _ _ _ Hm) as (a & Ha & Hn & ->).
  destruct (fsum_Fin_inv _ _ Ha) as (qs & Hw & ->).
  apply Qle_shift_div_l; [by apply of_nat_pos|]. rewrite Qmult_0_l.
  apply Qsum_nonneg, Forall_forall. intros q Hq. apply Hs.
  apply (subseteq_drop (S i - n)), (subseteq_take n). rewrite Hw.
  by apply list_elem_of_fmap_2.
Qed.

(** While the window still reaches back to a NaN at position 0 the mean
    is NaN. *)
Lemma rolling_mean_warmup n s i :
  s !! 0%nat = Some NaN -> (i < n)%nat -> (i < length s)%nat ->
  rolling_mean n s !! i = Some NaN.
Proof.
  intros H0 Hin Hlen.
  destruct (lookup_lt_is_Some_2 s i Hlen) as [x Hx].
  rewrite (rolling_mean_lookup n s i x Hx). f_equal.
  destruct (Nat.leb_spec n (S i)); [|done].
  replace (S i - n)%nat with 0%nat by lia. rewrite drop_0.
  rewrite fsum_NaN_elem; [done|].
  apply elem_of_take. exists 0%nat. split; [done | lia].
Qed.

Lemma rsi_up_length s n : length (rsi_up s n) = length s.
Proof. unfold rsi_up. by rewrite rolling_mean_length, length_map, diff_length. Qed.

Lemma rsi_down_length s n : length (rsi_down s n) = length s.
Proof. unfold rsi_down. by rewrite rolling_mean_length, length_map, diff_length. Qed.

Lemma rsi_length s n : length (rsi s n) = length s.
Proof.
  unfold rsi. rewrite length_map, length_zip_with, length_map.
  rewrite rsi_up_length, rsi_down_length. lia.
Qed.

(** The value at one position, from the two means at that position. *)
Lemma rsi_lookup s n i u d :
  rsi_up s n !! i = Some u -> rsi_down s n !! i = Some d ->
  rsi s n !! i =
    Some (fsub (Fin 100) (fdiv (Fin 100) (fadd (Fin 1) (fdiv u (replace0_nan d))))).
Proof.
  intros Hu Hd. unfold rsi.
  change (map ?f ?l) with (f <$> l).
  by rewrite list_lookup_fmap, lookup_zip_with, list_lookup_fmap, Hu, Hd.
Qed.

Lemma rsi_means_defined s n i :
  (i < length s)%nat ->
  exists u d, rsi_up s n !! i = Some u /\ rsi_down s n !! i = Some d.
Proof.
  intros Hi.
  destruct (lookup_lt_is_Some_2 (rsi_up s n) i) as [u Hu];
    [by rewrite rsi_up_length|].
  destruct (lookup_lt_is_Some_2 (rsi_down s n) i) as [d Hd];
    [by rewrite rsi_down_length|].
  by exists u, d.
Qed.

Lemma rsi_up_nonneg s n i u : rsi_up s n !! i = Some (Fin u) -> 0 <= u.
Proof.
  apply rolling_mean_nonneg. intros q Hq.
  change (map ?f ?l) with (f <$> l) in Hq.
  apply list_elem_of_fmap in Hq as (x & Hx & _). symmetry in Hx.
  by eapply clip_lower0_nonneg.
Qed.

Lemma rsi_down_nonneg s n i d : rsi_down s n !! i = Some (Fin d) -> 0 <= d.
Proof.
  apply rolling_mean_nonneg. intros q Hq.
  change (map ?f ?l) with (f <$> l) in Hq.
  apply list_elem_of_fmap in Hq as (x & Hx & _). symmetry in Hx.
  by eapply neg_clip_upper0_nonneg.
Qed.

Lemma rsi_down_warmup s i :
  (i < 14)%nat -> (i < length s)%nat -> rsi_down s 14 !! i = Some NaN.
Proof.
  intros Hi Hlen. unfold rsi_down. apply rolling_mean_warmup; [|done|].
  - change (map ?f ?l) with (f <$> l). rewrite list_lookup_fmap, diff_first; [done|].
    intros ->. simpl in Hlen. lia.
  - by rewrite length_map, diff_length.
Qed.

Lemma rsi_range u d :
  0 <= u -> 0 < d ->
  ~ 1 + u / d == 0
  /\ 0 <= 100 - 100 / (1 + u / d) /\ 100 - 100 / (1 + u / d) <= 100.
Proof.
  intros Hu Hd.
  assert (Hq : 0 <= u / d).
  { apply Qle_shift_div_l; [done|]. by rewrite Qmult_0_l. }
  set (x := 1 + u / d). assert (Hx : 1 <= x) by (unfold x; lra).
  assert (Hlo : 0 <= 100 / x).
  { apply Qle_shift_div_l; [lra|]. rewrite Qmult_0_l. lra. }
  assert (Hhi : 100 / x <= 100).
  { apply Qle_shift_div_r; lra. }
  split; [intros E; lra|]. split; lra.
Qed.

(** C6.  The 14-period relative-strength column is aligned with its
    input.  It is NaN at each of the first 14 positions, where the window
    of deltas is not yet complete, and at each position where the mean
    [down] of the trailing losses is 0.  Wherever it is a number, [up] and
    [down] are numbers with [down] > 0, the value is
    100 - 100 / (1 + up / down), and it lies between 0 and 100. *)
Theorem rsi_defined_range (series : list fl) (i : nat) :
  length (rsi series 14) = length series
  /\ ((i < 14)%nat -> (i < length series)%nat -> rsi series 14 !! i = Some NaN)
  /\ (forall d, rsi_down series 14 !! i = Some d -> feq d (Fin 0) = true ->
        rsi series 14 !! i = Some NaN)
  /\ (forall r, rsi series 14 !! i = Some (Fin r) ->
        exists u d,
          rsi_up series 14 !! i = Some (Fin u)
          /\ rsi_down series 14 !! i = Some (Fin d)
          /\ 0 <= u /\ 0 < d
          /\ r = 100 - 100 / (1 + u / d)
          /\ 0 <= r /\ r <= 100).
Proof.
  split; [apply rsi_length|]. split; [|split].
  - intros Hi Hlen.
    destruct (rsi_means_defined series 14 i Hlen) as (u & d & Hu & Hd).
    rewrite (rsi_lookup _ _ _ _ _ Hu Hd).
    rewrite (rsi_down_warmup series i Hi Hlen) in Hd. injection Hd as <-.
    by destruct u.
  - intros d Hd Hz.
    assert (Hlen : (i < length series)%nat).
    { apply lookup_lt_Some in Hd. by rewrite rsi_down_length in Hd. }
    destruct (rsi_means_defined series 14 i Hlen) as (u & d' & Hu & Hd').
    rewrite Hd in Hd'. injection Hd' as <-.
    rewrite (rsi_lookup _ _ _ _ _ Hu Hd). unfold replace0_nan. rewrite Hz.
    by destruct u.
  - intros r Hr.
    assert (Hlen : (i < length series)%nat).
    { apply lookup_lt_Some in Hr. by rewrite rsi_length in Hr. }
    destruct (rsi_means_defined series 14 i Hlen) as (u & d & Hu & Hd).
    rewrite (rsi_lookup _ _ _ _ _ Hu Hd) in Hr. injection Hr as Hr.
    destruct u as [|u]; [done|]. destruct d as [|d]; [done|].
    unfold replace0_nan in Hr. simpl in Hr.
    destruct (Qeq_bool d 0) eqn:Hd0; [done|]. simpl in Hr. rewrite Hd0 in Hr.
    assert (Hdne : ~ d == 0).
    { intros E. apply Qeq_bool_iff in E. congruence. }
    pose proof (rsi_up_nonneg _ _ _ _ Hu) as Hu0.
    pose proof (rsi_down_nonneg _ _ _ _ Hd) as Hd0'.
    assert (Hdpos : 0 < d) by (apply Qle_lteq in Hd0' as [?|E]; [done | by symmetry in E]).
    destruct (rsi_range u d Hu0 Hdpos) as (Hx & Hlo & Hhi).
    simpl in Hr. destruct (Qeq_bool (1 + u / d) 0) eqn:Hx0;
      [by apply Qeq_bool_iff in Hx0|].
    injection Hr as <-. by exists u, d.
Qed.

Lemma rsi_defined_range_witness :
  rsi closes_zigzag 14 !! 3%nat = Some NaN
  /\ exists u d,
       rsi_up closes_zigzag 14 !! 14%nat = Some (Fin u)
       /\ rsi_down closes_zigzag 14 !! 14%nat = Some (Fin d)
       /\ 0 <= 100 - 100 / (1 + u / d) <= 100.
Proof.
  split.
  - apply (rsi_defined_range closes_zigzag 3); vm_compute; lia.
  - destruct (rsi_defined_range closes_zigzag 14) as (_ & _ & _ & Hdef).
    destruct (Hdef _ eq_refl) as (u & d & Hu & Hd & _ & _ & Hr & Hlo & Hhi).
    exists u, d. rewrite <- Hr. by repeat split.
Defined.

(** * Further properties *)

(** ** Ticker normalisation: shape of the result *)

Lemma startswith_app p r : startswith p (p ++ r) = true.
Proof.
  induction p as [|a p IH]; [by destruct r|]. simpl. by rewrite Ascii.eqb_refl.
Qed.

Lemma endswith_app p s : endswith p (s ++ p) = true.
Proof. unfold endswith. rewrite rev_app_distr. apply startswith_app. Qed.

Lemma startswith_nonempty p s : p ≠ [] -> startswith p s = true -> s ≠ [].
Proof. destruct p, s; done. Qed.

Lemma endswith_nonempty p s : p ≠ [] -> endswith p s = true -> s ≠ [].
Proof.
  unfold endswith. intros Hp Hs ->.
  destruct (rev p) eqn:E; [|done].
  apply (f_equal (@rev ascii)) in E. rewrite rev_involutive in E. done.
Qed.

(** X1.  A normalised ticker is never empty, starts with "^" or ends with
    ".JK", has no blank at either end and no lower-case letter. *)
Theorem to_jk_ticker_shape (x : string) :
  let t := chars (_to_jk_ticker x) in
  t ≠ []
  /\ (startswith (chars "^") t = true \/ endswith (chars ".JK") t = true)
  /\ strip t = t
  /\ upper t = t.
Proof.
  cbv zeta. unfold _to_jk_ticker. set (t := upper (strip (chars x))).
  assert (Hl : lstrip t = t) by (unfold t; by rewrite lstrip_upper, lstrip_strip).
  assert (Hr : rstrip t = t) by (unfold t; by rewrite rstrip_upper, rstrip_strip).
  assert (Hu : upper t = t) by apply upper_idem.
  assert (Hs : strip t = t) by (unfold strip; by rewrite Hl, Hr).
  destruct (startswith (chars "^") t) eqn:Hhat.
  { rewrite chars_of_list. split; [|by auto].
    by apply (startswith_nonempty (chars "^")). }
  destruct (endswith (chars ".JK") t) eqn:Hjk.
  { rewrite chars_of_list. split; [|by auto].
    by apply (endswith_nonempty (chars ".JK")). }
  destruct (suffixed_clean t Hl Hu) as (Hl' & Hr' & Hu' & Hjk').
  rewrite chars_of_list. split; [|split; [|split]].
  - by apply (endswith_nonempty (chars ".JK")).
  - by right.
  - unfold strip. by rewrite Hl', Hr'.
  - done.
Qed.

(** ** Ticker normalisation: spelling *)

Lemma lstrip_blanks pre s :
  Forall (fun a => is_space a = true) pre -> lstrip (pre ++ s) = lstrip s.
Proof. induction 1 as [|a pre Ha _ IH]; [done|]. simpl. by rewrite Ha. Qed.

Lemma lstrip_all_blank s :
  Forall (fun a => is_space a = true) s -> lstrip s = [].
Proof. intros H. rewrite <- (app_nil_r s). by rewrite lstrip_blanks. Qed.

Lemma lstrip_app_nonblank s r : lstrip s ≠ [] -> lstrip (s ++ r) = lstrip s ++ r.
Proof.
  induction s as [|a s IH]; [done|]. simpl.
  destruct (is_space a); [exact IH | done].
Qed.

Lemma rstrip_blanks s post :
  Forall (fun a => is_space a = true) post -> rstrip (s ++ post) = rstrip s.
Proof.
  intros H. unfold rstrip. rewrite rev_app_distr, lstrip_blanks; [done|].
  apply Forall_forall. intros a Ha. rewrite Forall_forall in H. apply H.
  apply list_elem_of_In. apply list_elem_of_In in Ha. by apply in_rev.
Qed.

Lemma strip_padding pre s post :
  Forall (fun a => is_space a = true) pre ->
  Forall (fun a => is_space a = true) post ->
  strip (pre ++ s ++ post) = strip s.
Proof.
  intros Hpre Hpost. unfold strip. rewrite lstrip_blanks by done.
  destruct (lstrip s) as [|a l] eqn:Hs.
  - destruct (lstrip_split s) as (p & Hp & Hblank). rewrite Hs, app_nil_r in Hp.
    subst p. rewrite lstrip_all_blank; [done|]. by apply Forall_app.
  - rewrite lstrip_app_nonblank by (by rewrite Hs). rewrite Hs.
    by apply rstrip_blanks.
Qed.

(** X2.  Blanks around a ticker and the case of its letters do not
    matter: a spelling that, upper-cased, is the upper-cased ticker with
    blanks before and after it has the same normal form. *)
Theorem to_jk_ticker_spelling (x y : string) (pre post : list ascii) :
  Forall (fun a => is_space a = true) pre ->
  Forall (fun a => is_space a = true) post ->
  upper (chars y) = pre ++ upper (chars x) ++ post ->
  _to_jk_ticker y = _to_jk_ticker x.
Proof.
  intros Hpre Hpost Hy.
  assert (E : upper (strip (chars y)) = upper (strip (chars x))).
  { rewrite <- (strip_upper (chars y)), Hy, strip_padding by done.
    apply strip_upper. }
  unfold _to_jk_ticker. by rewrite E.
Qed.

Lemma to_jk_ticker_spelling_witness :
  _to_jk_ticker padded_ticker = _to_jk_ticker "bbri".
Proof.
  apply (to_jk_ticker_spelling "bbri" padded_ticker
           [ascii_of_nat 32; ascii_of_nat 9] [ascii_of_nat 10]).
  - by repeat constructor.
  - by repeat constructor.
  - reflexivity.
Defined.

(** ** Column names *)

Lemma strip_ticker_suffix_app yf_ticker f :
  strip_ticker_suffix yf_ticker (f ++ chars "_" ++ chars yf_ticker) = f.
Proof.
  unfold strip_ticker_suffix. rewrite endswith_app.
  rewrite length_app, Nat.add_sub. by rewrite take_app_length.
Qed.

Lemma chars_nonempty f : f ≠ ""%string -> nonempty (chars f) = true.
Proof. by destruct f. Qed.

(** X3.  On the two-level index of a single-ticker download, whose
    columns are the pairs (field, ticker), [_normalize_yf_columns] gives
    back the field names, in order. *)
Theorem normalize_yf_columns_single_ticker (fields : list string) (yf_ticker : string) :
  Forall (fun f => f ≠ ""%string) fields -> yf_ticker ≠ ""%string ->
  _normalize_yf_columns (MultiIndex (map (fun f => [f; yf_ticker]) fields)) yf_ticker
  = fields.
Proof.
  intros Hf Ht. simpl. rewrite map_map.
  induction Hf as [|f fields Hne _ IH]; [done|]. simpl. rewrite IH. f_equal.
  unfold flatten_column. simpl.
  rewrite (chars_nonempty f Hne), (chars_nonempty yf_ticker Ht). simpl.
  rewrite strip_ticker_suffix_app. apply string_of_list_ascii_of_string.
Qed.

Lemma normalize_yf_columns_single_ticker_witness :
  _normalize_yf_columns
    (MultiIndex [["Adj Close"; "BBRI.JK"]; ["Close"; "BBRI.JK"]; ["Volume"; "BBRI.JK"]])
    "BBRI.JK"
  = ["Adj Close"; "Close"; "Volume"]%string.
Proof.
  apply (normalize_yf_columns_single_ticker ["Adj Close"; "Close"; "Volume"]%string "BBRI.JK").
  - by repeat constructor.
  - done.
Defined.

(** ** The cache: eviction *)

(** X4.  Once [cache_get] has found an item too old and removed it, every
    later [cache_get] for that key finds nothing, whatever the clock
    says, and leaves the cache alone; the items under the other keys
    are as they were. *)
Theorem cache_evicted_stays_evicted {V : Type} (c : gmap string (item V))
    (k : string) (it : item V) (now : Z) :
  c !! k = Some it -> (now - ts it > CACHE_TTL_SECONDS)%Z ->
  let c' := (cache_get now k c).2 in
  (forall later, cache_get later k c' = (None, c'))
  /\ (forall k', k ≠ k' -> c' !! k' = c !! k').
Proof.
  intros Hk Hage c'. subst c'. rewrite (cache_get_expired c k it now Hk Hage).
  simpl. split.
  - intros later. apply cache_get_missing, lookup_delete_eq.
  - intros k' Hne. by apply lookup_delete_ne.
Qed.

Lemma cache_evicted_stays_evicted_witness :
  cache_get 0 "k" (cache_get 2000 "k" (cache_set 1000 "k" 7%nat ∅)).2
  = (None, (cache_get 2000 "k" (cache_set 1000 "k" 7%nat ∅)).2).
Proof.
  refine (proj1 (cache_evicted_stays_evicted (cache_set 1000 "k" 7%nat ∅) "k"
                   (Item 1000 7%nat) 2000 _ _) 0%Z).
  - apply cache_set_lookup.
  - reflexivity.
Defined.

(** ** Fetching through the cache *)

Lemma cache_get_Some_inv {V : Type} (c c1 : gmap string (item V)) k now v :
  cache_get now k c = (Some v, c1) ->
  exists it, c !! k = Some it /\ value it = v
    /\ (now - ts it <= CACHE_TTL_SECONDS)%Z /\ c1 = c.
Proof.
  unfold cache_get. destruct (c !! k) as [it|]; [|done].
  destruct (Z.ltb_spec CACHE_TTL_SECONDS (now - ts it)); [done|].
  intros [= <- <-]. by exists it.
Qed.

Lemma cache_get_None_inv {V : Type} (c c1 : gmap string (item V)) k now :
  cache_get now k c = (None, c1) ->
  c1 !! k = None /\ forall k', k ≠ k' -> c1 !! k' = c !! k'.
Proof.
  unfold cache_get. destruct (c !! k) as [it|] eqn:Hk.
  - destruct (CACHE_TTL_SECONDS <? now - ts it)%Z; [|done].
    intros [= <-]. split; [apply lookup_delete_eq|].
    intros k' Hne. by apply lookup_delete_ne.
  - by intros [= <-].
Qed.

Lemma fetch_ohlcv_hit download now now' ticker days c it :
  c !! cache_key (_to_jk_ticker ticker) days = Some it ->
  (now - ts it <= CACHE_TTL_SECONDS)%Z ->
  fetch_ohlcv download now now' ticker days c = (Ok (value it), c).
Proof.
  intros Hk Hage. unfold fetch_ohlcv. by rewrite (cache_get_fresh c _ it now Hk Hage).
Qed.

(** What a call that misses the cache does with the provider's answer. *)
Lemma fetch_ohlcv_miss download now now' ticker days c c1 :
  cache_get now (cache_key (_to_jk_ticker ticker) days) c = (None, c1) ->
  fetch_ohlcv download now now' ticker days c =
    match download (_to_jk_ticker ticker) (period_of days) with
    | None | Some [] =>
        (Raise ("Data kosong untuk ticker " ++ _to_jk_ticker ticker)%string, c1)
    | Some df =>
        (Ok (last_days days (List.filter complete_row df)),
         cache_set now' (cache_key (_to_jk_ticker ticker) days)
                   (last_days days (List.filter complete_row df)) c1)
    end.
Proof. intros Hget. unfold fetch_ohlcv. rewrite Hget. by repeat case_match. Qed.

Lemma cache_get_cases {V : Type} (c : gmap string (item V)) k now :
  (exists v, cache_get now k c = (Some v, c))
  \/ (exists c1, cache_get now k c = (None, c1)).
Proof.
  unfold cache_get. destruct (c !! k) as [it|]; [|by right; eexists].
  destruct (CACHE_TTL_SECONDS <? now - ts it)%Z; [right | left]; by eexists.
Qed.

(** X5.  After a call that answered with a frame, the cache holds that
    frame under the call's key, and for 600 seconds from the item's
    timestamp every call for the same days and any spelling of the
    ticker answers with it, without regard to the provider and without
    changing the cache. *)
Theorem fetch_ohlcv_served_from_cache
    (download : string -> string -> option (list Bar)) (now now' : Z)
    (ticker : string) (days : nat) (c c' : gmap string (item (list Bar)))
    (df : list Bar) :
  fetch_ohlcv download now now' ticker days c = (Ok df, c') ->
  exists it,
    c' !! cache_key (_to_jk_ticker ticker) days = Some it /\ value it = df
    /\ forall download2 now2 now2' ticker2,
         _to_jk_ticker ticker2 = _to_jk_ticker ticker ->
         (now2 - ts it <= CACHE_TTL_SECONDS)%Z ->
         fetch_ohlcv download2 now2 now2' ticker2 days c' = (Ok df, c').
Proof.
  intros Hfetch.
  assert (Hit : exists it,
             c' !! cache_key (_to_jk_ticker ticker) days = Some it /\ value it = df).
  { destruct (cache_get_cases c (cache_key (_to_jk_ticker ticker) days) now)
      as [[v Hget] | [c1 Hget]].
    - unfold fetch_ohlcv in Hfetch. rewrite Hget in Hfetch.
      injection Hfetch as <- <-.
      apply cache_get_Some_inv in Hget as (it & Hk & Hv & _ & _). by exists it.
    - rewrite (fetch_ohlcv_miss _ _ _ _ _ _ _ Hget) in Hfetch.
      destruct (download _ _) as [[|b raw]|]; try done.
      injection Hfetch as <- <-. eexists. split; [apply cache_set_lookup | done]. }
  destruct Hit as (it & Hk & Hv). exists it. split; [done|]. split; [done|].
  intros download2 now2 now2' ticker2 Hsame Hage. subst df.
  apply fetch_ohlcv_hit; [by rewrite Hsame | done].
Qed.

Lemma fetch_ohlcv_served_from_cache_witness :
  exists df c',
    fetch_ohlcv (fun _ _ => Some raw_with_gap) 100 101 "bbri" 5 ∅ = (Ok df, c')
    /\ fetch_ohlcv (fun _ _ => None) 701 702 padded_ticker 5 c' = (Ok df, c').
Proof.
  destruct (fetch_ohlcv (fun _ _ => Some raw_with_gap) 100 101 "bbri" 5 ∅)
    as [[df|msg] c'] eqn:Hfetch; [|by vm_compute in Hfetch].
  exists df, c'. split; [done|].
  destruct (fetch_ohlcv_served_from_cache _ _ _ _ _ _ _ _ Hfetch) as (it & Hk & _ & Hhit).
  apply Hhit; [reflexivity|].
  vm_compute in Hfetch. injection Hfetch as _ <-.
  vm_compute in Hk. injection Hk as <-. vm_compute. discriminate.
Defined.

Lemma last_days_suffix days df : last_days days df `suffix_of` df.
Proof.
  unfold last_days. destruct (days <? length df)%nat; [|done].
  destruct (days =? 0)%nat; [done|]. apply suffix_drop.
Qed.

Lemma last_days_length days df :
  (0 < days)%nat -> (length (last_days days df) <= days)%nat.
Proof.
  intros Hd. unfold last_days. destruct (Nat.ltb_spec days (length df)); [|done].
  destruct (Nat.eqb_spec days 0); [lia|]. rewrite length_drop. lia.
Qed.

Lemma last_days_all days df :
  (length df <= days)%nat -> last_days days df = df.
Proof.
  intros Hd. unfold last_days. destruct (Nat.ltb_spec days (length df)); [lia | done].
Qed.

Lemma complete_row_prices b :
  complete_row b = true <->
  isnan (bar_open b) = false /\ isnan (bar_high b) = false
  /\ isnan (bar_low b) = false /\ isnan (bar_close b) = false.
Proof.
  unfold complete_row. rewrite !andb_true_iff, !negb_true_iff. tauto.
Qed.

(** X6.  A call that misses the cache and gets rows from the provider
    answers with rows that all have their four prices, in the provider's
    order and ending where the provider's complete rows end; for a
    positive [days] there are at most [days] of them, and none is left
    out when the complete rows are not more than [days].  That frame is
    what the call stores. *)
Theorem fetch_ohlcv_fresh_frame
    (download : string -> string -> option (list Bar)) (now now' : Z)
    (ticker : string) (days : nat) (c c1 : gmap string (item (list Bar)))
    (raw : list Bar) :
  cache_get now (cache_key (_to_jk_ticker ticker) days) c = (None, c1) ->
  download (_to_jk_ticker ticker) (period_of days) = Some raw -> raw ≠ [] ->
  exists df,
    fetch_ohlcv download now now' ticker days c
      = (Ok df, cache_set now' (cache_key (_to_jk_ticker ticker) days) df c1)
    /\ Forall (fun b => isnan (bar_open b) = false /\ isnan (bar_high b) = false
                        /\ isnan (bar_low b) = false /\ isnan (bar_close b) = false) df
    /\ df `suffix_of` List.filter complete_row raw
    /\ ((0 < days)%nat -> (length df <= days)%nat)
    /\ ((length (List.filter complete_row raw) <= days)%nat ->
        df = List.filter complete_row raw).
Proof.
  intros Hget Hdl Hne. exists (last_days days (List.filter complete_row raw)).
  split; [|split; [|split; [|split]]].
  - rewrite (fetch_ohlcv_miss _ _ _ _ _ _ _ Hget), Hdl. by destruct raw.
  - apply Forall_forall. intros b Hb. apply complete_row_prices.
    destruct (last_days_suffix days (List.filter complete_row raw)) as [k Hk].
    assert (Hin : b ∈ List.filter complete_row raw).
    { rewrite Hk. apply elem_of_app. by right. }
    apply list_elem_of_In, filter_In in Hin. tauto.
  - apply last_days_suffix.
  - apply last_days_length.
  - apply last_days_all.
Qed.

Lemma fetch_ohlcv_fresh_frame_witness :
  exists df,
    fetch_ohlcv (fun _ _ => Some raw_with_gap) 100 101 "bbri" 5 ∅
      = (Ok df, cache_set 101 "ohlcv:BBRI.JK:5" df ∅)
    /\ (length df <= 5)%nat.
Proof.
  assert (Hget : cache_get 100 (cache_key (_to_jk_ticker "bbri") 5)
                   (∅ : gmap string (item (list Bar))) = (None, ∅))
    by (vm_compute; reflexivity).
  destruct (fetch_ohlcv_fresh_frame (fun _ _ => Some raw_with_gap) 100 101 "bbri" 5 ∅ ∅
              raw_with_gap Hget eq_refl ltac:(discriminate))
    as (df & Hfetch & _ & _ & Hlen & _).
  exists df. split; [exact Hfetch | apply Hlen; lia].
Defined.

(** X7.  When a call misses the cache and the provider answers nothing
    or an empty frame, the call raises the 404 that names the normalised
    ticker and stores nothing: the call's key is absent from the cache
    afterwards, so the next call for that ticker and days, at any time,
    asks the provider again and answers by what it then says. *)
Theorem fetch_ohlcv_failure
    (download : string -> string -> option (list Bar)) (now now' : Z)
    (ticker : string) (days : nat) (c c1 : gmap string (item (list Bar))) :
  cache_get now (cache_key (_to_jk_ticker ticker) days) c = (None, c1) ->
  (download (_to_jk_ticker ticker) (period_of days) = None
   \/ download (_to_jk_ticker ticker) (period_of days) = Some []) ->
  fetch_ohlcv download now now' ticker days c
    = (Raise ("Data kosong untuk ticker " ++ _to_jk_ticker ticker)%string, c1)
  /\ c1 !! cache_key (_to_jk_ticker ticker) days = None
  /\ forall download2 now2 now2',
       fetch_ohlcv download2 now2 now2' ticker days c1 =
         match download2 (_to_jk_ticker ticker) (period_of days) with
         | None | Some [] =>
             (Raise ("Data kosong untuk ticker " ++ _to_jk_ticker ticker)%string, c1)
         | Some df =>
             (Ok (last_days days (List.filter complete_row df)),
              cache_set now2' (cache_key (_to_jk_ticker ticker) days)
                        (last_days days (List.filter complete_row df)) c1)
         end.
Proof.
  intros Hget Hdl.
  pose proof (fetch_ohlcv_miss download now now' ticker days c c1 Hget) as Hfetch.
  apply cache_get_None_inv in Hget as [Hnone _].
  split; [|split; [done|]].
  - rewrite Hfetch. by destruct Hdl as [-> | ->].
  - intros download2 now2 now2'.
    apply fetch_ohlcv_miss, cache_get_missing, Hnone.
Qed.

Lemma fetch_ohlcv_failure_witness :
  fetch_ohlcv (fun _ _ => None) 100 101 "xxxx" 240 ∅
  = (Raise "Data kosong untuk ticker XXXX.JK", ∅).
Proof.
  assert (Hget : cache_get 100 (cache_key (_to_jk_ticker "xxxx") 240)
                   (∅ : gmap string (item (list Bar))) = (None, ∅))
    by (vm_compute; reflexivity).
  exact (proj1 (fetch_ohlcv_failure (fun _ _ => None) 100 101 "xxxx" 240 ∅ ∅
                  Hget (or_introl eq_refl))).
Defined.

(** X8.  A call reads and writes the cache under its own key only: what
    is stored under any other key is the same before and after,
    whichever way the call ends. *)
Theorem fetch_ohlcv_other_keys
    (download : string -> string -> option (list Bar)) (now now' : Z)
    (ticker : string) (days : nat) (c : gmap string (item (list Bar)))
    (k : string) :
  cache_key (_to_jk_ticker ticker) days ≠ k ->
  (fetch_ohlcv download now now' ticker days c).2 !! k = c !! k.
Proof.
  intros Hne.
  destruct (cache_get_cases c (cache_key (_to_jk_ticker ticker) days) now)
    as [[v Hget] | [c1 Hget]].
  - unfold fetch_ohlcv. by rewrite Hget.
  - rewrite (fetch_ohlcv_miss _ _ _ _ _ _ _ Hget).
    apply cache_get_None_inv in Hget as [_ Hother].
    destruct (download _ _) as [[|b raw]|]; simpl; try by apply Hother.
    rewrite cache_set_lookup_ne by done. by apply Hother.
Qed.

Lemma fetch_ohlcv_other_keys_witness :
  (fetch_ohlcv (fun _ _ => Some raw_with_gap) 100 101 "bbri" 5
     (cache_set 0 "ohlcv:TLKM.JK:5" [] ∅)).2 !! "ohlcv:TLKM.JK:5"
  = Some (Item 0 []).
Proof.
  rewrite (fetch_ohlcv_other_keys (fun _ _ => Some raw_with_gap) 100 101 "bbri" 5
             (cache_set 0 "ohlcv:TLKM.JK:5" [] ∅) "ohlcv:TLKM.JK:5");
    [apply cache_set_lookup | by vm_compute].
Defined.

(** ** The signal endpoint *)

Lemma filter_none_complete raw :
  Forall (fun b => complete_row b = false) raw -> List.filter complete_row raw = [].
Proof. induction 1 as [|b raw Hb _ IH]; [done|]. simpl. by rewrite Hb. Qed.

(** X9.  When the provider answers with rows of which none has all four
    prices, no 404 is raised: the empty frame that is left is stored, the
    classifier fails on it with the IndexError of [d.iloc[-1]], and so
    does every call of the next 600 seconds, whatever the provider would
    answer by then. *)
Theorem api_signal_incomplete_rows
    (download : string -> string -> option (list Bar)) (now now' : Z)
    (ticker : string) (days : nat) (c c1 : gmap string (item (list Bar)))
    (raw : list Bar) :
  cache_get now (cache_key (_to_jk_ticker ticker) days) c = (None, c1) ->
  download (_to_jk_ticker ticker) (period_of days) = Some raw -> raw ≠ [] ->
  Forall (fun b => complete_row b = false) raw ->
  let c' := cache_set now' (cache_key (_to_jk_ticker ticker) days) [] c1 in
  api_signal download now now' ticker days c
    = (Raise "single positional indexer is out-of-bounds", c')
  /\ forall download2 now2 now2',
       (now2 - now' <= CACHE_TTL_SECONDS)%Z ->
       api_signal download2 now2 now2' ticker days c'
         = (Raise "single positional indexer is out-of-bounds", c').
Proof.
  intros Hget Hdl Hne Hgaps c'. subst c'.
  assert (Hfetch : fetch_ohlcv download now now' ticker days c
                   = (Ok [], cache_set now' (cache_key (_to_jk_ticker ticker) days) [] c1)).
  { rewrite (fetch_ohlcv_miss _ _ _ _ _ _ _ Hget), Hdl.
    rewrite (filter_none_complete raw Hgaps). by destruct raw. }
  split.
  - unfold api_signal. by rewrite Hfetch.
  - intros download2 now2 now2' Hage. unfold api_signal.
    by rewrite (fetch_ohlcv_hit download2 now2 now2' ticker days _ (Item now' []))
      by (apply cache_set_lookup || done).
Qed.

Lemma api_signal_incomplete_rows_witness :
  (api_signal (fun _ _ => Some raw_all_gaps) 100 101 "bbri" 240 ∅).1
  = Raise "single positional indexer is out-of-bounds".
Proof.
  assert (Hget : cache_get 100 (cache_key (_to_jk_ticker "bbri") 240)
                   (∅ : gmap string (item (list Bar))) = (None, ∅))
    by (vm_compute; reflexivity).
  assert (Hgaps : Forall (fun b => complete_row b = false) raw_all_gaps)
    by (repeat constructor).
  destruct (api_signal_incomplete_rows (fun _ _ => Some raw_all_gaps) 100 101 "bbri" 240
              ∅ ∅ raw_all_gaps Hget eq_refl ltac:(discriminate) Hgaps) as [H _].
  by rewrite H.
Defined.

(** ** The signal classifier: what each setup carries *)

(** The helper numbers of [compute_signal] for a frame [d] with last row
    [lastb], named as in the source. *)
Lemma compute_signal_inv df sig :
  compute_signal df = Ok sig ->
  exists lastb,
    last df = Some lastb
    /\ close sig = bar_close lastb
    /\ volume sig = nan_default (bar_volume lastb) (Fin 0)
    /\ ma20 sig = nan_default (last_of (sma (col bar_close df) 20)) (close sig)
    /\ ma50 sig = nan_default (last_of (sma (col bar_close df) 50)) (close sig)
    /\ resistance sig = pivot_high df 20
    /\ support sig = pivot_low df 20
    /\ trend_ok sig = fgt (close sig) (ma50 sig) && fgt (ma20 sig) (ma50 sig)
    /\ asof sig = bar_date lastb
    /\ ((setup sig = BREAKOUT
         /\ trend_ok sig = true
         /\ fgt (close sig) (resistance sig) = true
         /\ fgt (volume sig) (volma20 sig) = true
         /\ entry sig = Some (close sig)
         /\ (exists atr14v s,
               sl sig = Some s
               /\ s = (if fgt atr14v (Fin 0)
                       then py_min (support sig) (fsub (close sig) (fmul (Fin 2) atr14v))
                       else support sig)
               /\ tp1 sig = Some (fadd (close sig) (fmul (fsub (close sig) s) (Fin 1)))
               /\ tp2 sig = Some (fadd (close sig) (fmul (fsub (close sig) s) (Fin 2)))))
        \/ (setup sig = PULLBACK_MA20
            /\ trend_ok sig = true
            /\ fge (close sig) (bar_open lastb) = true
            /\ entry sig = Some (close sig)
            /\ (exists s,
                  sl sig = Some s
                  /\ s = py_min (support sig) (fmul (ma20 sig) (Fin (98 # 100)))
                  /\ tp1 sig = Some (resistance sig)
                  /\ tp2 sig = Some (fadd (resistance sig) (fsub (resistance sig) s))))
        \/ (setup sig = NONE
            /\ entry sig = None /\ sl sig = None /\ tp1 sig = None /\ tp2 sig = None
            /\ rr sig = None)).
Proof.
  intros Hsig. unfold compute_signal in Hsig.
  destruct (last df) as [lastb|] eqn:Hl; [|done]. exists lastb. split; [done|].
  cbv zeta in Hsig.
  set (close_ := bar_close lastb) in *.
  set (vol := nan_default (bar_volume lastb) (Fin 0)) in *.
  set (ma20_ := nan_default (last_of (sma (col bar_close df) 20)) close_) in *.
  set (ma50_ := nan_default (last_of (sma (col bar_close df) 50)) close_) in *.
  set (volma := nan_default (last_of (sma (col bar_volume df) 20)) vol) in *.
  set (atr14v := nan_default (last_of (atr df 14)) (Fin 0)) in *.
  set (trend := fgt close_ ma50_ && fgt ma20_ ma50_) in *.
  destruct trend eqn:Htrend; simpl in Hsig.
  - destruct (fgt close_ (pivot_high df 20)) eqn:Hres; simpl in Hsig.
    + destruct (fgt vol volma) eqn:Hvol; simpl in Hsig.
      * injection Hsig as <-. simpl. repeat split; try done.
        left. repeat split; try done.
        exists atr14v. eexists. split; [reflexivity|]. by repeat split.
      * destruct (_ && fge close_ (bar_open lastb)) eqn:Hpull in Hsig;
          injection Hsig as <-; simpl; repeat split; try done.
        -- right; left. apply andb_true_iff in Hpull as [_ Hge].
           repeat split; try done. eexists. split; [reflexivity|]. by repeat split.
        -- by right; right.
    + destruct (_ && fge close_ (bar_open lastb)) eqn:Hpull in Hsig;
        injection Hsig as <-; simpl; repeat split; try done.
      -- right; left. apply andb_true_iff in Hpull as [_ Hge].
         repeat split; try done. eexists. split; [reflexivity|]. by repeat split.
      -- by right; right.
  - injection Hsig as <-. simpl. repeat split; try done. by right; right.
Qed.

(** ** Pivots: support below resistance *)

Lemma window_extremes (w : list Bar) :
  w ≠ [] -> (forall b, b ∈ w -> fle (bar_low b) (bar_high b) = true) ->
  exists p r, nanmin (col bar_low w) = Fin p /\ nanmax (col bar_high w) = Fin r
    /\ p <= r.
Proof.
  intros Hne Hinv. destruct w as [|b w]; [done|].
  assert (Hb : b ∈ b :: w) by left.
  destruct (cmp2_true _ _ _ (Hinv b Hb)) as (l & h & Hl & Hh & Hlh).
  apply Qle_bool_iff in Hlh.
  pose proof (nanmin_is_min (col bar_low (b :: w))) as Hmin.
  pose proof (nanmax_is_max (col bar_high (b :: w))) as Hmax.
  assert (Hlin : Fin l ∈ col bar_low (b :: w)).
  { rewrite <- Hl. by apply list_elem_of_fmap_2. }
  assert (Hhin : Fin h ∈ col bar_high (b :: w)).
  { rewrite <- Hh. by apply list_elem_of_fmap_2. }
  destruct (nanmin (col bar_low (b :: w))) as [|p]; [by apply Hmin in Hlin|].
  destruct (nanmax (col bar_high (b :: w))) as [|r]; [by apply Hmax in Hhin|].
  exists p, r. repeat split. destruct Hmin as [_ Hmin]. destruct Hmax as [_ Hmax].
  specialize (Hmin l Hlin). specialize (Hmax h Hhin). lra.
Qed.

Lemma iloc_tail_subset {A} k (df : list A) : iloc_tail k df ⊆ df.
Proof.
  unfold iloc_tail. intros x Hx. by apply subseteq_take, subseteq_drop in Hx.
Qed.

Lemma iloc_tail_nonempty (df : list Bar) :
  (22 <= length df)%nat -> iloc_tail 21 df ≠ [].
Proof.
  intros Hlen E. destruct (iloc_tail_window df Hlen) as (_ & Hw & _).
  by rewrite E in Hw.
Qed.

(** X10.  On a frame that is not empty and whose bars all have
    low <= high, support and resistance are numbers and support is not
    above resistance. *)
Theorem support_below_resistance (df : list Bar) :
  df ≠ [] -> (forall b, b ∈ df -> fle (bar_low b) (bar_high b) = true) ->
  exists p r, pivot_low df 20 = Fin p /\ pivot_high df 20 = Fin r /\ p <= r.
Proof.
  intros Hne Hinv. destruct (Nat.lt_ge_cases (length df) 22) as [Hlen|Hlen].
  - rewrite pivot_low_short, pivot_high_short by done. by apply window_extremes.
  - rewrite pivot_low_long, pivot_high_long by done.
    apply window_extremes; [by apply iloc_tail_nonempty|].
    intros b Hb. by apply Hinv, (iloc_tail_subset 21).
Qed.

Lemma support_below_resistance_witness :
  exists p r, pivot_low series_zero_low 20 = Fin p
    /\ pivot_high series_zero_low 20 = Fin r /\ p <= r.
Proof.
  apply support_below_resistance; [discriminate|].
  intros b Hb. apply list_elem_of_lookup in Hb as [i Hb].
  do 60 (destruct i as [|i]; [injection Hb as <-; reflexivity|]). done.
Defined.

(** ** The signal classifier: edge cases and levels *)

Lemma last_of_sma_short s n : (length s < n)%nat -> last_of (sma s n) = NaN.
Proof.
  intros Hlen. destruct s as [|x s]; [done|]. unfold sma.
  rewrite last_of_rolling_mean by done.
  destruct (Nat.leb_spec n (length (x :: s))); [lia | done].
Qed.

(** X12.  With fewer than 50 bars there is no 50-day mean: [ma50] falls
    back to the close, the trend test fails, and the setup is NONE with
    no entry, stop-loss, target or risk-reward block. *)
Theorem short_history_no_setup (df : list Bar) (sig : Signal) :
  (length df < 50)%nat -> compute_signal df = Ok sig ->
  ma50 sig = close sig /\ trend_ok sig = false /\ setup sig = NONE
  /\ entry sig = None /\ sl sig = None /\ tp1 sig = None /\ tp2 sig = None
  /\ rr sig = None.
Proof.
  intros Hlen Hsig.
  destruct (compute_signal_inv df sig Hsig)
    as (lastb & _ & _ & _ & _ & Hma50 & _ & _ & Htrend & _ & Hcases).
  rewrite last_of_sma_short in Hma50 by (unfold col; by rewrite length_map).
  change (nan_default NaN (close sig)) with (close sig) in Hma50.
  rewrite Hma50, fgt_irrefl in Htrend. simpl in Htrend.
  split; [done|]. split; [done|].
  destruct Hcases as [(_ & Ht & _) | [(_ & Ht & _) | Hnone]]; [congruence.. | done].
Qed.

Lemma short_history_no_setup_witness :
  exists sig, compute_signal series_signed_volume = Ok sig /\ setup sig = NONE.
Proof.
  destruct (compute_signal series_signed_volume) as [sig|] eqn:Hsig;
    [|by vm_compute in Hsig].
  exists sig. split; [done|].
  apply (short_history_no_setup series_signed_volume sig); [vm_compute; lia | done].
Defined.

(** X13.  A signal either has setup NONE and then no entry, stop-loss,
    target or risk-reward block, or it has a setup and then the trend
    test holds, the entry is the latest close and stop-loss and both
    targets are set; a BREAKOUT moreover has close > resistance and
    volume > volma20. *)
Theorem setup_levels (df : list Bar) (sig : Signal) :
  compute_signal df = Ok sig ->
  (setup sig = NONE /\ entry sig = None /\ sl sig = None
   /\ tp1 sig = None /\ tp2 sig = None /\ rr sig = None)
  \/ (setup sig ≠ NONE /\ trend_ok sig = true /\ entry sig = Some (close sig)
      /\ is_Some (sl sig) /\ is_Some (tp1 sig) /\ is_Some (tp2 sig)
      /\ (setup sig = BREAKOUT ->
          fgt (close sig) (resistance sig) = true
          /\ fgt (volume sig) (volma20 sig) = true)).
Proof.
  intros Hsig.
  destruct (compute_signal_inv df sig Hsig)
    as (lastb & _ & _ & _ & _ & _ & _ & _ & _ & _ & Hcases).
  destruct Hcases as [(Hs & Ht & Hres & Hvol & He & atr14v & s & Hsl & _ & H1 & H2)
                     | [(Hs & Ht & _ & He & s & Hsl & _ & H1 & H2) | Hnone]].
  - right. rewrite Hs, Hsl, H1, H2. by repeat split.
  - right. rewrite Hs, Hsl, H1, H2. by repeat split.
  - by left.
Qed.

Lemma setup_levels_witness :
  exists sig, compute_signal series_breakout = Ok sig
    /\ entry sig = Some (close sig) /\ is_Some (sl sig).
Proof.
  destruct (compute_signal series_breakout) as [sig|] eqn:Hsig;
    [|by vm_compute in Hsig].
  exists sig. split; [done|].
  destruct (setup_levels series_breakout sig Hsig)
    as [(Hnone & _) | (_ & _ & He & Hsl & _)]; [|done].
  vm_compute in Hsig. injection Hsig as <-. discriminate Hnone.
Defined.

Lemma py_min_Fin a b x :
  py_min a b = Fin x ->
  (forall p, a = Fin p -> x <= p) /\ (forall q, b = Fin q -> x <= q).
Proof.
  unfold py_min. destruct (flt b a) eqn:Hlt.
  - destruct (cmp2_true _ _ _ Hlt) as (b' & a' & -> & -> & Hba).
    apply Qlt_bool_iff in Hba. intros [= <-].
    split; [intros ? [= <-]; lra | intros ? [= <-]; apply Qle_refl].
  - intros ->. split; [intros ? [= <-]; apply Qle_refl|].
    intros q ->. by apply Qlt_bool_false_iff in Hlt.
Qed.

(** X14.  A stop-loss that is a number is never above a support that is a
    number; in a pullback it is not above 0.98 times [ma20] either. *)
Theorem stop_not_above_support (df : list Bar) (sig : Signal) (s p : Q) :
  compute_signal df = Ok sig ->
  sl sig = Some (Fin s) -> support sig = Fin p ->
  s <= p
  /\ (setup sig = PULLBACK_MA20 ->
      forall m, ma20 sig = Fin m -> s <= m * (98 # 100)).
Proof.
  intros Hsig Hsl Hsup.
  destruct (compute_signal_inv df sig Hsig)
    as (lastb & _ & _ & _ & _ & _ & _ & _ & _ & _ & Hcases).
  destruct Hcases as [(Hs & _ & _ & _ & _ & atr14v & s' & Hsl' & Hdef & _)
                     | [(Hs & _ & _ & _ & s' & Hsl' & Hdef & _) | (_ & _ & Hnone & _)]].
  - rewrite Hsl in Hsl'. injection Hsl' as <-. rewrite Hsup in Hdef.
    split; [|by rewrite Hs]. destruct (fgt atr14v (Fin 0)).
    + symmetry in Hdef. apply py_min_Fin in Hdef as [H _]. by apply H.
    + injection Hdef as ->. apply Qle_refl.
  - rewrite Hsl in Hsl'. injection Hsl' as <-. rewrite Hsup in Hdef.
    symmetry in Hdef. apply py_min_Fin in Hdef as [H1 H2].
    split; [by apply H1|]. intros _ m Hm. apply H2. by rewrite Hm.
  - congruence.
Qed.

Lemma stop_not_above_support_witness :
  exists sig s p, compute_signal series_breakout = Ok sig
    /\ sl sig = Some (Fin s) /\ support sig = Fin p /\ s <= p.
Proof.
  destruct (compute_signal series_breakout) as [sig|] eqn:Hsig;
    [|by vm_compute in Hsig].
  pose proof (stop_not_above_support series_breakout sig 20 20 Hsig) as H.
  vm_compute in Hsig. injection Hsig as <-.
  eexists. exists 20, 20.
  split; [reflexivity|]. split; [reflexivity|]. split; [reflexivity|].
  exact (proj1 (H eq_refl eq_refl)).
Defined.

(** ** The signal classifier: breakout levels *)

(** X15.  In a BREAKOUT on bars that all have low <= high, entry,
    stop-loss and both targets are numbers, the stop-loss lies below the
    entry, tp1 is not below the entry and tp2 not below tp1; so the
    risk-reward block is missing only when the entry or the stop-loss is
    exactly zero. *)
Theorem breakout_levels (df : list Bar) (sig : Signal) :
  compute_signal df = Ok sig -> setup sig = BREAKOUT ->
  (forall b, b ∈ df -> fle (bar_low b) (bar_high b) = true) ->
  exists e s t1 t2,
    entry sig = Some (Fin e) /\ sl sig = Some (Fin s)
    /\ tp1 sig = Some (Fin t1) /\ tp2 sig = Some (Fin t2)
    /\ s < e /\ e <= t1 /\ t1 <= t2
    /\ (is_Some (rr sig) <-> ~ e == 0 /\ ~ s == 0).
Proof.
  intros Hsig Hsetup Hinv.
  pose proof (compute_signal_rr df sig Hsig) as Hrr.
  destruct (compute_signal_inv df sig Hsig)
    as (lastb & Hl & _ & _ & _ & _ & Hres & Hsup & _ & _ & Hcases).
  destruct Hcases as [(_ & _ & Hgt & _ & He & atr14v & s & Hsl & Hdef & H1 & H2)
                     | [(Hs & _) | (Hs & _)]]; [|congruence..].
  assert (Hne : df ≠ []) by (intros ->; done).
  assert (Hpiv : exists p r, pivot_low df 20 = Fin p /\ pivot_high df 20 = Fin r
                             /\ p <= r).
  { destruct (Nat.lt_ge_cases (length df) 22) as [Hlen|Hlen].
    - rewrite pivot_low_short, pivot_high_short by done. by apply window_extremes.
    - rewrite pivot_low_long, pivot_high_long by done.
      apply window_extremes; [by apply iloc_tail_nonempty|].
      intros b Hb. by apply Hinv, (iloc_tail_subset 21). }
  destruct Hpiv as (p & r & Hp & Hr & Hpr).
  rewrite Hres, Hr in Hgt. rewrite Hsup, Hp in Hdef.
  destruct (close sig) as [|e] eqn:Hclose; [done|]. apply fgt_Fin in Hgt.
  assert (Hs : exists s', s = Fin s' /\ s' < e).
  { destruct (fgt atr14v (Fin 0)) eqn:Hatr.
    - destruct (cmp2_true _ _ _ Hatr) as (a & z & -> & [= <-] & Ha).
      apply Qlt_bool_iff in Ha. subst s. unfold py_min. simpl.
      destruct (Qlt_bool (e - 2 * a) p); eexists; (split; [reflexivity | lra]).
    - subst s. exists p. split; [done | lra]. }
  destruct Hs as (s' & -> & Hlt).
  simpl in H1, H2.
  exists e, s', (e + (e - s') * 1), (e + (e - s') * 2).
  split; [done|]. split; [done|]. split; [done|]. split; [done|].
  split; [done|]. split; [lra|]. split; [lra|].
  rewrite Hrr, He, Hsl. unfold risk_reward.
  assert (Hgt' : fgt (Fin e) (Fin s') = true) by (by apply fgt_Fin).
  rewrite Hgt', andb_true_r. split.
  - intros [rb Hrb].
    destruct (truthy (Fin e)) eqn:Te; [|done].
    destruct (truthy (Fin s')) eqn:Ts; [|done].
    by split; apply truthy_Fin.
  - intros [Te Ts]. apply truthy_Fin in Te, Ts. rewrite Te, Ts. by eexists.
Qed.

Lemma breakout_levels_witness :
  exists sig e s t1 t2,
    compute_signal series_breakout = Ok sig
    /\ entry sig = Some (Fin e) /\ sl sig = Some (Fin s)
    /\ tp1 sig = Some (Fin t1) /\ tp2 sig = Some (Fin t2)
    /\ s < e /\ e <= t1 /\ t1 <= t2.
Proof.
  assert (Hinv : forall b, b ∈ series_breakout -> fle (bar_low b) (bar_high b) = true).
  { intros b Hb. apply list_elem_of_lookup in Hb as [i Hb].
    do 60 (destruct i as [|i]; [injection Hb as <-; reflexivity|]). done. }
  destruct (compute_signal series_breakout) as [sig|] eqn:Hsig;
    [|by vm_compute in Hsig].
  pose proof (breakout_levels series_breakout sig Hsig) as H.
  vm_compute in Hsig. injection Hsig as <-.
  destruct (H eq_refl Hinv) as (e & s & t1 & t2 & He & Hs & H1 & H2 & Hlt1 & Hlt2 & Hlt3 & _).
  eexists. exists e, s, t1, t2. split; [reflexivity|]. by repeat split.
Defined.

(** ** Moving averages *)

Lemma Qsum_const qs c :
  Forall (fun q => q == c) qs -> Qsum qs == inject_Z (Z.of_nat (length qs)) * c.
Proof.
  induction 1 as [|q qs Hq _ IH].
  - unfold Qsum. simpl. ring.
  - change (Qsum (q :: qs)) with (q + Qsum qs). rewrite IH, Hq.
    assert (E : inject_Z (Z.of_nat (length (q :: qs)))
                == inject_Z (Z.of_nat (length qs)) + 1).
    { cbn [length]. rewrite Nat2Z.inj_succ. unfold Z.succ.
      by rewrite inject_Z_plus. }
    rewrite E. ring.
Qed.

Lemma all_Fin_map (w : list fl) (P : Q -> Prop) :
  Forall (fun x => exists q, x = Fin q /\ P q) w ->
  exists qs, w = map Fin qs /\ Forall P qs.
Proof.
  induction 1 as [|x w (q & -> & Hq) _ (qs & -> & Hqs)].
  - by exists [].
  - exists (q :: qs). split; [done | by constructor].
Qed.

(** The mean of a complete window of numbers that all equal [c] is
    [c]. *)
Lemma rolling_mean_const n (s : list fl) i c :
  n ≠ 0%nat -> (n <= S i)%nat -> (i < length s)%nat ->
  (forall j x, (S i - n <= j <= i)%nat -> s !! j = Some x ->
     exists q, x = Fin q /\ q == c) ->
  exists m, rolling_mean n s !! i = Some (Fin m) /\ m == c.
Proof.
  intros Hn Hni Hlen Hwin.
  destruct (lookup_lt_is_Some_2 s i Hlen) as [x Hx].
  rewrite (rolling_mean_lookup n s i x Hx).
  destruct (Nat.leb_spec n (S i)); [|lia].
  set (w := take n (drop (S i - n) s)).
  assert (Hw : Forall (fun x => exists q, x = Fin q /\ q == c) w).
  { apply Forall_lookup. intros k y Hk. unfold w in Hk.
    apply lookup_take_Some in Hk as [Hk Hkn]. rewrite lookup_drop in Hk.
    apply (Hwin (S i - n + k)%nat); [lia | done]. }
  assert (Hwlen : length w = n).
  { unfold w. rewrite length_take, length_drop. lia. }
  destruct (all_Fin_map w _ Hw) as (qs & Hqs & Hall).
  rewrite Hqs, fsum_map_Fin. unfold of_nat.
  rewrite fdiv_Fin by (pose proof (of_nat_pos n Hn); intros E; lra).
  eexists. split; [reflexivity|]. rewrite (Qsum_const qs c Hall).
  assert (Hl : length qs = n) by (rewrite <- Hwlen, Hqs; by rewrite length_map).
  rewrite Hl. field. pose proof (of_nat_pos n Hn). intros E. lra.
Qed.

(** X16.  [sma] keeps the length of its input and is NaN at each of the
    first [n - 1] positions; on a series of numbers that all equal [c] it
    is [c] from position [n - 1] on. *)
Theorem sma_warmup_and_constant (series : list fl) (n i : nat) (c : Q) :
  length (sma series n) = length series
  /\ ((i < length series)%nat -> (S i < n)%nat -> sma series n !! i = Some NaN)
  /\ (n ≠ 0%nat -> (n <= S i)%nat -> (i < length series)%nat ->
      Forall (fun x => exists q, x = Fin q /\ q == c) series ->
      exists m, sma series n !! i = Some (Fin m) /\ m == c).
Proof.
  unfold sma. split; [apply rolling_mean_length|]. split.
  - intros Hlen Hi. destruct (lookup_lt_is_Some_2 series i Hlen) as [x Hx].
    rewrite (rolling_mean_lookup n series i x Hx).
    destruct (Nat.leb_spec n (S i)); [lia | done].
  - intros Hn Hni Hlen Hall. apply rolling_mean_const; try done.
    intros j x _ Hj. rewrite Forall_lookup in Hall. by apply (Hall j).
Qed.

Lemma sma_warmup_and_constant_witness :
  sma (col bar_close (flat_run 25 0 10 100)) 20 !! 5%nat = Some NaN
  /\ exists m, sma (col bar_close (flat_run 25 0 10 100)) 20 !! 22%nat = Some (Fin m)
       /\ m == 10.
Proof.
  destruct (sma_warmup_and_constant (col bar_close (flat_run 25 0 10 100)) 20 5 10)
    as (_ & Hwarm & _).
  destruct (sma_warmup_and_constant (col bar_close (flat_run 25 0 10 100)) 20 22 10)
    as (_ & _ & Hconst).
  split; [apply Hwarm; vm_compute; lia|].
  apply Hconst; [lia | lia | vm_compute; lia |].
  vm_compute. repeat constructor; by eexists.
Defined.

(** ** Average true range *)

Lemma removelast_length {A} (l : list A) : length (removelast l) = pred (length l).
Proof.
  induction l as [|x [|y l] IH]; [done | done |]. simpl in IH |- *. by rewrite IH.
Qed.

Lemma shift_length s : length (shift s) = length s.
Proof.
  destruct s as [|x s]; [done|]. unfold shift.
  change (length (NaN :: removelast (x :: s))) with (S (length (removelast (x :: s)))).
  by rewrite removelast_length.
Qed.

Lemma true_range_length df : length (true_range df) = length df.
Proof.
  unfold true_range, zip3, col.
  rewrite length_zip_with, length_zip, shift_length, !length_map. lia.
Qed.

(** One row of the true range, from that row's high and low and the
    entry [pc] of the shifted closes. *)
Lemma true_range_lookup df i b :
  df !! i = Some b ->
  exists pc,
    true_range df !! i =
      Some (nanmax [fsub (bar_high b) (bar_low b);
                    fabs (fsub (bar_high b) pc); fabs (fsub (bar_low b) pc)]).
Proof.
  intros Hb.
  assert (Hlen : (i < length (shift (col bar_close df)))%nat).
  { rewrite shift_length. unfold col. rewrite length_map. by eapply lookup_lt_Some. }
  destruct (lookup_lt_is_Some_2 _ _ Hlen) as [pc Hpc]. exists pc.
  assert (Hcol : forall f, col f df !! i = Some (f b)).
  { intros f. unfold col. change (map f df) with (f <$> df).
    by rewrite list_lookup_fmap, Hb. }
  unfold true_range, zip3. apply lookup_zip_with_Some.
  exists (bar_high b), (bar_low b, pc). split; [done|]. split; [apply Hcol|].
  apply lookup_zip_Some. split; [apply Hcol | exact Hpc].
Qed.

Lemma true_range_nonneg df q :
  (forall b, b ∈ df -> fge (bar_high b) (bar_low b) = true) ->
  Fin q ∈ true_range df -> 0 <= q.
Proof.
  intros Hinv Hq. apply list_elem_of_lookup in Hq as [i Hi].
  assert (Hlen : (i < length df)%nat).
  { apply lookup_lt_Some in Hi. by rewrite true_range_length in Hi. }
  destruct (lookup_lt_is_Some_2 df i Hlen) as [b Hb].
  destruct (true_range_lookup df i b Hb) as [pc Htr].
  rewrite Htr in Hi. injection Hi as Hi.
  destruct (cmp2_true _ _ _ (Hinv b (list_elem_of_lookup_2 _ _ _ Hb)))
    as (h & l & Hh & Hl & Hhl).
  apply Qle_bool_iff in Hhl. rewrite Hh, Hl in Hi.
  assert (Hmax : is_max_of (Fin q) [fsub (Fin h) (Fin l);
                                    fabs (fsub (Fin h) pc); fabs (fsub (Fin l) pc)])
    by (rewrite <- Hi;
        exact (nanmax_is_max [fsub (Fin h) (Fin l);
                              fabs (fsub (Fin h) pc); fabs (fsub (Fin l) pc)])).
  destruct Hmax as [_ Hub].
  assert (Hge : h - l <= q) by (apply Hub; left).
  lra.
Qed.

(** X17.  The average true range is aligned with the frame and NaN at
    each of its first 13 positions; on bars that all have high >= low it
    is never negative where it is a number. *)
Theorem atr_warmup_and_sign (df : list Bar) (i : nat) :
  length (atr df 14) = length df
  /\ ((i < 13)%nat -> (i < length df)%nat -> atr df 14 !! i = Some NaN)
  /\ ((forall b, b ∈ df -> fge (bar_high b) (bar_low b) = true) ->
      forall a, atr df 14 !! i = Some (Fin a) -> 0 <= a).
Proof.
  unfold atr. split; [by rewrite rolling_mean_length, true_range_length|]. split.
  - intros Hi Hlen.
    destruct (lookup_lt_is_Some_2 (true_range df) i) as [x Hx];
      [by rewrite true_range_length|].
    rewrite (rolling_mean_lookup 14 _ i x Hx).
    destruct (Nat.leb_spec 14 (S i)); [lia | done].
  - intros Hinv a Ha. eapply rolling_mean_nonneg; [|exact Ha].
    intros q Hq. by eapply true_range_nonneg.
Qed.

Lemma atr_warmup_and_sign_witness :
  atr series_breakout 14 !! 59%nat = Some (Fin (10 / 14))
  /\ 0 <= 10 / 14.
Proof.
  assert (Hinv : forall b, b ∈ series_breakout -> fge (bar_high b) (bar_low b) = true).
  { intros b Hb. apply list_elem_of_lookup in Hb as [i Hb].
    do 60 (destruct i as [|i]; [injection Hb as <-; reflexivity|]). done. }
  assert (Hv : atr series_breakout 14 !! 59%nat = Some (Fin (10 / 14)))
    by (vm_compute; reflexivity).
  split; [exact Hv|].
  exact (proj2 (proj2 (atr_warmup_and_sign series_breakout 59)) Hinv _ Hv).
Defined.

(** ** Relative strength without losses *)

Lemma diff_lookup_S s j a b :
  s !! j = Some a -> s !! S j = Some b -> diff s !! S j = Some (fsub b a).
Proof.
  intros Ha Hb. destruct s as [|x t]; [done|]. simpl.
  rewrite lookup_zip_with. simpl in Hb. by rewrite Hb, Ha.
Qed.

(** X18.  On closes that are all numbers and never fall from one day to
    the next, the mean of the losses is 0 wherever its window is
    complete, and the relative-strength value is NaN at every position:
    it does not read 100. *)
Theorem rsi_undefined_without_losses (closes : list Q) (i : nat) :
  (forall j a b, closes !! j = Some a -> closes !! S j = Some b -> a <= b) ->
  (i < length closes)%nat ->
  rsi (map Fin closes) 14 !! i = Some NaN.
Proof.
  intros Hmono Hlen.
  assert (Hlen' : (i < length (map Fin closes))%nat) by (by rewrite length_map).
  destruct (rsi_means_defined (map Fin closes) 14 i Hlen') as (u & d & Hu & Hd).
  rewrite (rsi_lookup _ _ _ _ _ Hu Hd).
  destruct (Nat.lt_ge_cases i 14) as [Hi|Hi].
  { rewrite (rsi_down_warmup _ i Hi Hlen') in Hd. injection Hd as <-. by destruct u. }
  assert (Hzero : exists m, rsi_down (map Fin closes) 14 !! i = Some (Fin m) /\ m == 0).
  { unfold rsi_down. apply rolling_mean_const; [lia | lia | |].
    - by rewrite length_map, diff_length.
    - intros j x Hj Hx. change (map ?f ?l) with (f <$> l) in Hx.
      rewrite list_lookup_fmap in Hx.
      destruct j as [|j]; [lia|].
      assert (Hjlen : (S j < length closes)%nat) by lia.
      destruct (lookup_lt_is_Some_2 closes j ltac:(lia)) as [a Ha].
      destruct (lookup_lt_is_Some_2 closes (S j) Hjlen) as [b Hb].
      assert (Hfin : forall k q, closes !! k = Some q ->
                                 map Fin closes !! k = Some (Fin q)).
      { intros k q Hk. change (map Fin closes) with (Fin <$> closes).
        by rewrite list_lookup_fmap, Hk. }
      rewrite (diff_lookup_S (map Fin closes) j (Fin a) (Fin b)) in Hx
        by (by apply Hfin).
      injection Hx as <-. specialize (Hmono j a b Ha Hb). simpl.
      destruct (Qlt_bool 0 (b - a)) eqn:E; simpl; eexists; (split; [reflexivity|]).
      + reflexivity.
      + apply Qlt_bool_false_iff in E. lra. }
  destruct Hzero as (m & Hm & Hm0). rewrite Hd in Hm. injection Hm as ->.
  unfold replace0_nan.
  assert (Hz : feq (Fin m) (Fin 0) = true) by (by apply feq_Fin).
  rewrite Hz. by destruct u.
Qed.

Lemma rsi_undefined_without_losses_witness :
  rsi (map Fin closes_rising) 14 !! 17%nat = Some NaN.
Proof.
  apply rsi_undefined_without_losses; [|vm_compute; lia].
  intros j a b Ha Hb.
  do 19 (destruct j as [|j];
         [injection Ha as <-; injection Hb as <-; vm_compute; discriminate|]).
  destruct j; discriminate.
Defined.

(** ** The regime classifier on a short history *)

Lemma flt_irrefl x : flt x x = false.
Proof. destruct x as [|a]; [done|]. apply Qlt_bool_false_iff, Qle_refl. Qed.

(** X19.  With fewer than 50 benchmark bars there is no 50-day mean:
    [ma50] falls back to the close, neither trend test can hold, and the
    status is NEUTRAL with an empty note, whatever the volatility or the
    day's change. *)
Theorem regime_short_history (df : list Bar) :
  df ≠ [] -> (length df < 50)%nat ->
  status (market_regime (Ok df)) = NEUTRAL
  /\ note (market_regime (Ok df)) = []
  /\ reg_ma50 (market_regime (Ok df)) = reg_close (market_regime (Ok df)).
Proof.
  intros Hne Hlen.
  destruct (last df) as [lastb|] eqn:Hl; [|by apply last_None in Hl].
  rewrite (market_regime_ok df lastb Hl). cbv zeta. cbn [status note reg_ma50 reg_close].
  assert (Hma : regime_ma50 df lastb = bar_close lastb).
  { unfold regime_ma50. rewrite last_of_sma_short; [done|].
    unfold col. by rewrite length_map. }
  rewrite Hma. unfold regime_status. rewrite fgt_irrefl, flt_irrefl. by simpl.
Qed.

Lemma regime_short_history_witness :
  status (market_regime (Ok series_signed_volume)) = NEUTRAL.
Proof.
  apply (regime_short_history series_signed_volume); [discriminate | vm_compute; lia].
Defined.

(** ** The screener: universe, count and ranks *)

Lemma screen_ticker_is_Some fetch_ohlcv days t :
  is_Some (screen_ticker fetch_ohlcv days t) <-> answers_frame fetch_ohlcv days t = true.
Proof.
  unfold screen_ticker, answers_frame.
  destruct (fetch_ohlcv t days) as [[|b df]|msg]; simpl.
  - split; [by intros [? ?] | done].
  - destruct (compute_signal_total (b :: df)) as [sig ->]; [done|].
    split; [done | by eexists].
  - split; [by intros [? ?] | done].
Qed.

Lemma screener_results_length fetch_ohlcv days tickers :
  length (screener_results fetch_ohlcv days tickers)
  = length (List.filter (answers_frame fetch_ohlcv days) tickers).
Proof.
  unfold screener_results. induction tickers as [|t tickers IH]; [done|].
  change (omap (screen_ticker fetch_ohlcv days) (t :: tickers))
    with (match screen_ticker fetch_ohlcv days t with
          | Some row => row :: omap (screen_ticker fetch_ohlcv days) tickers
          | None => omap (screen_ticker fetch_ohlcv days) tickers
          end).
  cbn [List.filter].
  pose proof (screen_ticker_is_Some fetch_ohlcv days t) as Hiff.
  destruct (screen_ticker fetch_ohlcv days t) as [row|].
  - rewrite (proj1 Hiff) by (by eexists). cbn [length]. by rewrite IH.
  - destruct (answers_frame fetch_ohlcv days t); [|done].
    by destruct (proj2 Hiff eq_refl).
Qed.

(** X21.  In the screener's answer [count] is the number of tickers of
    the list whose fetch answered with a frame of at least one row: a
    ticker whose fetch raised, or came back empty, is dropped and the
    batch goes on.  [count] is at most the length of the list, and [top]
    has min(25, count) rows, so [count] can exceed the rows returned. *)
Theorem api_screener_count (tickers_lq45 : list string)
    (fetch_ohlcv : string -> nat -> outcome (list Bar))
    (universe : string) (days : nat) (resp : Screener) :
  api_screener tickers_lq45 fetch_ohlcv universe days = Ok resp ->
  count resp = length (List.filter (answers_frame fetch_ohlcv days) tickers_lq45)
  /\ (count resp <= length tickers_lq45)%nat
  /\ length (top resp) = Nat.min 25 (count resp).
Proof.
  intros Hresp.
  assert (Hcount : count resp
                   = length (List.filter (answers_frame fetch_ohlcv days) tickers_lq45)).
  { destruct (api_screener_top _ _ _ _ _ Hresp) as [_ ->].
    apply screener_results_length. }
  split; [done|]. split.
  - rewrite Hcount. apply filter_length_le.
  - unfold api_screener in Hresp.
    destruct (load_universe tickers_lq45 universe); [|done].
    injection Hresp as <-. cbn [top count]. apply length_take.
Qed.

Lemma api_screener_count_witness :
  exists resp, api_screener sample_universe sample_fetch "LQ45" 240 = Ok resp
    /\ count resp = 2%nat /\ length (top resp) = 2%nat.
Proof.
  destruct (api_screener sample_universe sample_fetch "LQ45" 240) as [resp|] eqn:Hresp;
    [|by vm_compute in Hresp].
  destruct (api_screener_count _ _ _ _ _ Hresp) as (Hc & _ & Ht).
  exists resp. split; [done|]. rewrite Ht, Hc. by split.
Defined.

Lemma Setup_eqb_eq a b : Setup_eqb a b = true <-> a = b.
Proof. destruct a, b; simpl; split; congruence. Qed.

(** X22.  The score of a row is between 0 and 6.  A BREAKOUT row scores
    5 or 6, a PULLBACK_MA20 row 4 or 5, and a row without setup at most
    3, so every row with a setup ranks above every row without one. *)
Theorem row_score_by_setup (fetch_ohlcv : string -> nat -> outcome (list Bar))
    (days : nat) (t : string) (row : Row) :
  screen_ticker fetch_ohlcv days t = Some row ->
  (0 <= score row <= 6)%Z
  /\ (row_setup row = BREAKOUT -> (5 <= score row)%Z)
  /\ (row_setup row = PULLBACK_MA20 -> (4 <= score row <= 5)%Z)
  /\ (row_setup row = NONE -> (score row <= 3)%Z).
Proof.
  unfold screen_ticker. intros Hrow.
  destruct (fetch_ohlcv t days) as [df|]; [|done].
  destruct (compute_signal df) as [sig|] eqn:Hsig; [|done].
  injection Hrow as <-. cbn [score row_setup]. rewrite score_of_sum.
  destruct (compute_signal_inv df sig Hsig)
    as (lastb & _ & _ & _ & _ & _ & _ & _ & _ & _ & Hcases).
  destruct (truthy (volume sig) && truthy (volma20 sig)
            && fgt (volume sig) (volma20 sig));
    destruct Hcases as [(Hs & Ht & _) | [(Hs & Ht & _) | (Hs & _)]];
    rewrite Hs, ?Ht; destruct (trend_ok sig); simpl;
    repeat split; intros; try discriminate; lia.
Qed.

Lemma row_score_by_setup_witness :
  exists row, screen_ticker sample_fetch 240 "BBCA" = Some row
    /\ row_setup row = BREAKOUT /\ (5 <= score row)%Z.
Proof.
  destruct (screen_ticker sample_fetch 240 "BBCA") as [row|] eqn:Hrow;
    [|by vm_compute in Hrow].
  destruct (row_score_by_setup _ _ _ _ Hrow) as (_ & Hb & _).
  vm_compute in Hrow. injection Hrow as <-.
  eexists. split; [reflexivity|]. split; [reflexivity|]. by apply Hb.
Defined.
